(** * Orchestrator core: task-graph normalizer, token governor, exchange
      state machine and scheduler of [orchestrator.py], embedded in Rocq.

    Python values are modelled as the program has them: a [str] is a list
    of Unicode code points, a [set[str]] is a [gset], a YAML document is a
    tree of [pyval].  The builtins whose tables are not part of the program
    ([str()], [str.lower], the Unicode decimal-digit class of [\d], float
    division and comparison) are operations of the classes [PyText] and
    [PyFloat]; every theorem holds for each instance. *)

From Stdlib Require Import ZArith NArith List Bool Lia Ascii String.
From Stdlib Require Import DecimalString DecimalN QArith.
From stdpp Require Import base decidable option list gmap sets.

Set Warnings "-register-all,-clear-no-such-hyp".
Local Open Scope N_scope.

(* ===================================================================== *)
(** * Python strings and values *)
(* ===================================================================== *)

Module Py.

(** A Python [str]: a sequence of code points. *)
Definition pystr := list N.

(** Decoding of the UTF-8 bytes of a source literal. *)
Fixpoint utf8_decode (bs : list N) : pystr :=
  match bs with
  | [] => []
  | b0 :: tl =>
      if b0 <? 128 then b0 :: utf8_decode tl
      else if b0 <? 224 then
        match tl with
        | b1 :: tl1 => ((b0 - 192) * 64 + (b1 - 128)) :: utf8_decode tl1
        | [] => [b0]
        end
      else if b0 <? 240 then
        match tl with
        | b1 :: b2 :: tl2 =>
            ((b0 - 224) * 4096 + (b1 - 128) * 64 + (b2 - 128))
              :: utf8_decode tl2
        | _ => [b0]
        end
      else
        match tl with
        | b1 :: b2 :: b3 :: tl3 =>
            ((b0 - 240) * 262144 + (b1 - 128) * 4096
             + (b2 - 128) * 64 + (b3 - 128)) :: utf8_decode tl3
        | _ => [b0]
        end
  end.

Definition u (s : string) : pystr :=
  utf8_decode (map N_of_ascii (list_ascii_of_string s)).
Arguments u : simpl never.

(** [str.isspace] on one code point (the whitespace of [strip] and of
    the regular-expression class [\s]). *)
Definition is_space (c : N) : bool :=
  ((9 <=? c) && (c <=? 13)) || ((28 <=? c) && (c <=? 32))
  || (c =? 133) || (c =? 160) || (c =? 5760)
  || ((8192 <=? c) && (c <=? 8202))
  || (c =? 8232) || (c =? 8233) || (c =? 8239) || (c =? 8287)
  || (c =? 12288).

Fixpoint lstrip (s : pystr) : pystr :=
  match s with
  | c :: tl => if is_space c then lstrip tl else s
  | [] => []
  end.

Definition rstrip (s : pystr) : pystr := rev (lstrip (rev s)).

(** [s.strip()] *)
Definition strip (s : pystr) : pystr := lstrip (rstrip s).
Arguments strip : simpl never.

(** Line boundaries of [str.splitlines]. *)
Definition is_linebreak (c : N) : bool :=
  ((10 <=? c) && (c <=? 13)) || ((28 <=? c) && (c <=? 30))
  || (c =? 133) || (c =? 8232) || (c =? 8233).

(** [s.splitlines()]: the accumulator [cur] holds the current line
    reversed; [\r\n] counts as one boundary; no empty last line. *)
Fixpoint splitlines_aux (cur : pystr) (s : pystr) : list pystr :=
  match s with
  | [] => match cur with [] => [] | _ => [rev cur] end
  | c :: tl =>
      if is_linebreak c then
        match tl with
        | c' :: tl' =>
            if (c =? 13) && (c' =? 10)
            then rev cur :: splitlines_aux [] tl'
            else rev cur :: splitlines_aux [] tl
        | [] => [rev cur]
        end
      else splitlines_aux (c :: cur) tl
  end.

Definition splitlines (s : pystr) : list pystr := splitlines_aux [] s.

(** Decimal rendering of a non-negative integer, as in [f"{idx}"]. *)
Definition dec (n : N) : pystr :=
  map N_of_ascii (list_ascii_of_string (NilEmpty.string_of_uint (N.to_uint n))).
Arguments dec : simpl never.

(** [sub in s] for strings. *)
Fixpoint is_prefix (p s : pystr) : bool :=
  match p, s with
  | [], _ => true
  | a :: p', b :: s' => (a =? b) && is_prefix p' s'
  | _ :: _, [] => false
  end.

Fixpoint contains (sub s : pystr) : bool :=
  is_prefix sub s
  || match s with
     | [] => false
     | _ :: tl => contains sub tl
     end.

(** [sep.join(parts)] *)
Fixpoint join (sep : pystr) (parts : list pystr) : pystr :=
  match parts with
  | [] => []
  | [p] => p
  | p :: tl => p ++ sep ++ join sep tl
  end.

(** A value loaded from YAML or JSON.  A mapping keeps its string keys
    in document order; [get] is [dict.get] with a string key. *)
Inductive pyval :=
| PNone
| PBool (b : bool)
| PInt (z : Z)
| PStr (s : pystr)
| PList (l : list pyval)
| PDict (d : list (pystr * pyval)).

Definition pydict := list (pystr * pyval).

(** Truth value of [if v:] *)
Definition truthy (v : pyval) : bool :=
  match v with
  | PNone => false
  | PBool b => b
  | PInt z => negb (z =? 0)%Z
  | PStr s => match s with [] => false | _ => true end
  | PList l => match l with [] => false | _ => true end
  | PDict d => match d with [] => false | _ => true end
  end.

(** [a or b] *)
Definition por (a b : pyval) : pyval := if truthy a then a else b.

Fixpoint get (d : pydict) (key : pystr) : pyval :=
  match d with
  | [] => PNone
  | (k, v) :: tl => if decide (k = key) then v else get tl key
  end.

(** [d.get(key, default)] *)
Fixpoint get_default (d : pydict) (key : pystr) (default : pyval) : pyval :=
  match d with
  | [] => default
  | (k, v) :: tl => if decide (k = key) then v else get_default tl key default
  end.

(** Builtins whose Unicode tables are outside the program. *)
Class PyText := {
  py_str : pyval -> pystr;       (* str(v) *)
  py_lower : pystr -> pystr;     (* s.lower() *)
  uni_digit : N -> bool          (* the class \d of a str pattern *)
}.

(** What the theorems below use of these builtins. *)
Record PyTextLaws `{PyText} : Prop := {
  py_str_of_str : forall s, py_str (PStr s) = s;
  py_str_truthy : forall v, truthy v = true -> py_str v <> [];
  py_lower_nil : py_lower [] = [];
  uni_digit_ascii : forall c, c < 128 -> uni_digit c = (48 <=? c) && (c <=? 57)
}.

(** An instance for evaluating the model: decimal integers, ASCII case
    folding, ASCII digits. Containers are rendered by their brackets. *)
Definition ascii_lower_char (c : N) : N :=
  if (65 <=? c) && (c <=? 90) then c + 32 else c.

Definition ascii_str (v : pyval) : pystr :=
  match v with
  | PNone => u "None"
  | PBool true => u "True"
  | PBool false => u "False"
  | PInt z => if (z <? 0)%Z then u "-" ++ dec (Z.to_N (- z)) else dec (Z.to_N z)
  | PStr s => s
  | PList _ => u "[...]"
  | PDict _ => u "{...}"
  end.

Definition ascii_digit (c : N) : bool := (48 <=? c) && (c <=? 57).

#[export] Instance ascii_text : PyText := {|
  py_str := ascii_str;
  py_lower := map ascii_lower_char;
  uni_digit := fun c => (48 <=? c) && (c <=? 57)
|}.

End Py.
Export Py.

(* ===================================================================== *)
(** * Regular expressions: the backtracking matcher of [re] *)
(* ===================================================================== *)

Module Regex.

(** An input character with its membership in the class [\d]. *)
Definition achar := (N * bool)%type.

Definition annot `{PyText} (s : pystr) : list achar :=
  map (fun c => (c, uni_digit c)) s.

(** The constructs used by the patterns of the program; a quantifier is
    always applied to a one-character class. *)
Inductive re :=
| Eps
| Chr (p : achar -> bool)
| Star (p : achar -> bool)        (* p*  greedy *)
| StarLazy (p : achar -> bool)    (* p*? *)
| Seq (a b : re)
| Alt (a b : re)
| Group (n : nat) (a : re)
| Look (a : re)                   (* (?=a) *)
| Bol                             (* ^ without MULTILINE *)
| Eol.                            (* $ without MULTILINE *)

Definition captures := list (nat * pystr).

Definition consumed (before after : list achar) : pystr :=
  map fst (take (length before - length after) before).

(** [bos] is true while no character has been consumed from the start
    of the string; [k] is the rest of the pattern. *)
Fixpoint star_greedy {R : Type} (p : achar -> bool) (bos : bool)
    (l : list achar) (k : bool -> list achar -> option R) : option R :=
  match l with
  | x :: xs =>
      if p x then
        match star_greedy p false xs k with
        | Some r => Some r
        | None => k bos l
        end
      else k bos l
  | [] => k bos []
  end.

Fixpoint star_lazy {R : Type} (p : achar -> bool) (bos : bool)
    (l : list achar) (k : bool -> list achar -> option R) : option R :=
  match k bos l with
  | Some r => Some r
  | None =>
      match l with
      | x :: xs => if p x then star_lazy p false xs k else None
      | [] => None
      end
  end.

Fixpoint run {R : Type} (r : re) (bos : bool) (l : list achar)
    (c : captures) (k : bool -> list achar -> captures -> option R)
    {struct r} : option R :=
  match r with
  | Eps => k bos l c
  | Chr p =>
      match l with
      | x :: xs => if p x then k false xs c else None
      | [] => None
      end
  | Star p => star_greedy p bos l (fun b l' => k b l' c)
  | StarLazy p => star_lazy p bos l (fun b l' => k b l' c)
  | Seq a b => run a bos l c (fun b1 l1 c1 => run b b1 l1 c1 k)
  | Alt a b =>
      match run a bos l c k with
      | Some x => Some x
      | None => run b bos l c k
      end
  | Group n a =>
      run a bos l c (fun b1 l1 c1 => k b1 l1 ((n, consumed l l1) :: c1))
  | Look a =>
      match run a bos l c (fun _ _ c1 => Some c1) with
      | Some c1 => k bos l c1
      | None => None
      end
  | Bol => if bos then k bos l c else None
  | Eol =>
      match l with
      | [] => k bos l c
      | [(10, _)] => k bos l c
      | _ => None
      end
  end.

(** One attempt at the current position: the input left after the
    match, and the groups. *)
Definition match_here (r : re) (bos : bool) (l : list achar)
  : option (list achar * captures) :=
  run r bos l [] (fun _ l1 c1 => Some (l1, c1)).

Definition group (c : captures) (n : nat) : pystr :=
  match find (fun e => Nat.eqb (fst e) n) c with
  | Some e => snd e
  | None => []
  end.

(** Left-to-right scan for non-overlapping matches; [skip] counts the
    characters still covered by the previous match.  (No pattern of the
    program matches the empty string.) *)
Fixpoint scan (r : re) (bos : bool) (l : list achar) (skip : nat)
    {struct l} : list captures :=
  match skip with
  | S n =>
      match l with
      | [] => []
      | _ :: xs => scan r false xs n
      end
  | O =>
      match match_here r bos l with
      | Some (l1, c1) =>
          c1 :: match l with
                | [] => []
                | _ :: xs => scan r false xs (pred (length l - length l1)%nat)
                end
      | None =>
          match l with
          | [] => []
          | _ :: xs => scan r false xs 0
          end
      end
  end.

(** [re.findall(pattern, s)] for a pattern with groups 1 and 2. *)
Definition findall2 `{PyText} (r : re) (s : pystr) : list (pystr * pystr) :=
  map (fun c => (group c 1, group c 2)) (scan r true (annot s) 0).

(** [pattern.match(s)]: an attempt at position 0 only. *)
Definition rmatch `{PyText} (r : re) (s : pystr) : option (list achar) :=
  option_map fst (match_here r true (annot s)).

(** [pattern.sub("", s)] *)
Fixpoint sub_scan (r : re) (bos : bool) (l : list achar) (skip : nat)
    {struct l} : pystr :=
  match skip with
  | S n =>
      match l with
      | [] => []
      | _ :: xs => sub_scan r false xs n
      end
  | O =>
      match l with
      | [] => []
      | x :: xs =>
          match match_here r bos l with
          | Some (l1, _) =>
              match (length l - length l1)%nat with
              | O => fst x :: sub_scan r false xs 0
              | S n => sub_scan r false xs n
              end
          | None => fst x :: sub_scan r false xs 0
          end
      end
  end.

Definition sub_empty `{PyText} (r : re) (s : pystr) : pystr :=
  sub_scan r true (annot s) 0.

(** Character classes *)
Definition lit (c : N) : achar -> bool := fun x => fst x =? c.
Definition space : achar -> bool := fun x => is_space (fst x).
Definition digit : achar -> bool := fun x => snd x.            (* \d *)
Definition not_lit (c : N) : achar -> bool := fun x => negb (fst x =? c).
Definition not_09 : achar -> bool :=                           (* [^0-9] *)
  fun x => negb ((48 <=? fst x) && (fst x <=? 57)).
Definition one_of (cs : list N) : achar -> bool :=
  fun x => existsb (N.eqb (fst x)) cs.

Definition plus (p : achar -> bool) : re := Seq (Chr p) (Star p).
Definition plus_lazy (p : achar -> bool) : re := Seq (Chr p) (StarLazy p).
Definition opt (a : re) : re := Alt a Eps.

End Regex.

(* ===================================================================== *)
(** * Task-graph normalizer *)
(* ===================================================================== *)

Module Normalizer.
Import Regex.

Definition nonempty (s : pystr) : bool :=
  match s with [] => false | _ => true end.

(** A task as [normalize_task_entry] builds it. *)
Record entry := mk_entry {
  e_id : pystr;
  e_task : pystr;
  e_notes : pystr;
  e_preferred : pystr;
  e_deps : list pystr;
  e_group : pystr
}.

(** A task as [assign_instruments] builds it. *)
Record assignment := mk_assignment {
  a_name : pystr;
  a_task : pystr;
  a_notes : pystr;
  a_id : pystr;
  a_deps : list pystr;
  a_group : pystr
}.

Definition suffixed (name : pystr) (idx : N) : pystr :=
  name ++ u "-" ++ dec idx.

(** The [while] loop of [unique_name]; it leaves through the [else]
    branch within [size used + 1] rounds (lemma [unique_name_loop_free]). *)
Fixpoint unique_name_loop (fuel : nat) (name : pystr) (used : gset pystr)
    (idx : N) : pystr :=
  match fuel with
  | O => suffixed name idx
  | S f =>
      if decide (suffixed name idx ∈ used)
      then unique_name_loop f name used (idx + 1)
      else suffixed name idx
  end.

Definition unique_name (name : pystr) (used : gset pystr) : pystr :=
  if decide (name ∈ used)
  then unique_name_loop (S (size used)) name used 2
  else name.

Definition plain_entry (text : pystr) : entry :=
  mk_entry [] text [] [] [] (u "bag").

Section WithText.
Context {text : PyText}.

(** [^\s*(?:[-*•・]|(?:\d+)[\)\.\:]?|\(\d+\))\s+] *)
Definition _BULLET_RE : re :=
  Seq Bol
    (Seq (Star space)
       (Seq (Alt (Chr (one_of [45; 42; 8226; 12539]))
               (Alt (Seq (plus digit) (opt (Chr (one_of [41; 46; 58]))))
                  (Seq (Chr (lit 40)) (Seq (plus digit) (Chr (lit 41))))))
          (plus space))).

Definition split_task_lines (task : pystr) : list pystr :=
  let lines :=
    map strip (List.filter (fun l => nonempty (strip l)) (splitlines task)) in
  match lines with
  | [] => []
  | _ =>
      let bullets :=
        map (fun line => strip (sub_empty _BULLET_RE line))
          (List.filter
             (fun line =>
                match rmatch _BULLET_RE line with
                | Some _ => true
                | None => false
                end) lines) in
      if (2 <=? length bullets)%nat
      then List.filter nonempty bullets
      else [strip task]
  end.

Definition normalize_dependency_list (value : pyval) : list pystr :=
  match value with
  | PStr s => if nonempty (strip s) then [strip s] else []
  | PList l =>
      omap (fun item =>
              match item with
              | PStr s => if nonempty (strip s) then Some (strip s) else None
              | _ => None
              end) l
  | _ => []
  end.

Definition normalize_task_entry (item : pyval) (default_group : pystr)
  : option entry :=
  match item with
  | PStr s =>
      if nonempty (strip s)
      then Some (mk_entry [] (strip s) [] [] [] default_group)
      else None
  | PDict d =>
      let task_text :=
        por (get d (u "task"))
          (por (get d (u "summary"))
             (por (get d (u "detail")) (get d (u "instruction")))) in
      if truthy task_text then
        Some
          (mk_entry
             (strip (py_str (por (get d (u "id"))
                               (por (get d (u "task_id"))
                                  (por (get d (u "name")) (PStr []))))))
             (strip (py_str task_text))
             (strip (py_str (por (get d (u "notes")) (PStr []))))
             (strip (py_str (por (get d (u "preferred_instrument"))
                               (por (get d (u "instrument"))
                                  (por (get d (u "role")) (PStr []))))))
             (normalize_dependency_list
                (por (get d (u "deps"))
                   (por (get d (u "depends_on")) (get d (u "dependencies")))))
             default_group)
      else None
  | _ => None
  end.

Definition set_preferred (e : entry) (p : pystr) : entry :=
  mk_entry (e_id e) (e_task e) (e_notes e) p (e_deps e) (e_group e).

(** [entry["preferred"] = ...] of the [performers] branch. *)
Definition prefer_performer (item : pyval) (e : entry) : entry :=
  match item with
  | PDict d =>
      set_preferred e
        (strip (py_str (por (get d (u "name"))
                          (por (get d (u "instrument")) (PStr [])))))
  | _ => e
  end.

(** [entry["preferred"] = ...] of the [instruments] branch. *)
Definition prefer_instrument (item : pyval) (e : entry) : entry :=
  match item with
  | PDict d =>
      set_preferred e (strip (py_str (por (get d (u "name")) (PStr []))))
  | _ => e
  end.

(** One [for item in raw: entry = normalize_task_entry(item, group);
    if entry: ...; tasks.append(entry)] loop; nothing when [raw] is
    not a list. *)
Definition collect (raw : pyval) (group : pystr)
    (adjust : pyval -> entry -> entry) : list entry :=
  match raw with
  | PList l =>
      omap (fun item => option_map (adjust item)
                          (normalize_task_entry item group)) l
  | _ => []
  end.

Definition keep (_ : pyval) (e : entry) : entry := e.

Definition is_nil {A} (l : list A) : bool :=
  match l with [] => true | _ => false end.

Definition normalize_tasks (score : pydict) (task : pystr) : list entry :=
  let tasks :=
    collect (get score (u "dag")) (u "dag") keep
    ++ collect (get score (u "bag")) (u "bag") keep in
  let tasks :=
    if is_nil tasks
    then collect (get score (u "performers")) (u "bag") prefer_performer
    else tasks in
  let tasks :=
    if is_nil tasks
    then collect (get score (u "tasks")) (u "bag") keep
    else tasks in
  let tasks :=
    if is_nil tasks
    then collect (get score (u "instruments")) (u "bag") prefer_instrument
    else tasks in
  let tasks :=
    if is_nil tasks
    then map (fun part => plain_entry (strip part))
           (List.filter (fun part => nonempty (strip part))
              (split_task_lines task))
    else tasks in
  if is_nil tasks && nonempty (strip task)
  then [plain_entry (strip task)]
  else tasks.

(** [pool = [name for name in instrument_pool
             if isinstance(name, str) and name.strip()]] *)
Definition usable_pool (instrument_pool : list pyval) : list pystr :=
  omap (fun v =>
          match v with
          | PStr s => if nonempty (strip s) then Some s else None
          | _ => None
          end) instrument_pool.

(** [while pool_index < len(pool) and pool[pool_index] in used]:
    the pool is kept as the part from [pool_index] on. *)
Fixpoint skip_used (used : gset pystr) (pool : list pystr) : list pystr :=
  match pool with
  | p :: tl => if decide (p ∈ used) then skip_used used tl else pool
  | [] => []
  end.

Fixpoint assign_loop (idx : N) (used : gset pystr) (pool : list pystr)
    (tasks : list entry) : list assignment :=
  match tasks with
  | [] => []
  | item :: tl =>
      let preferred := strip (e_preferred item) in
      let '(name, pool') :=
        if nonempty preferred then (unique_name preferred used, pool)
        else
          match skip_used used pool with
          | p :: rest => (unique_name p used, rest)
          | [] => (u "演奏者-" ++ dec idx, [])
          end in
      mk_assignment name (strip (e_task item)) (strip (e_notes item))
        (strip (e_id item)) (e_deps item) (strip (e_group item))
        :: assign_loop (idx + 1) ({[name]} ∪ used) pool' tl
  end.

Definition assign_instruments (tasks : list entry)
    (instrument_pool : list pyval) : list assignment :=
  assign_loop 1 ∅ (usable_pool instrument_pool) tasks.

Definition set_id_deps (a : assignment) (i : pystr) (d : list pystr)
  : assignment :=
  mk_assignment (a_name a) (a_task a) (a_notes a) i d (a_group a).

(** The id one round of the first loop of [normalize_assignments]
    settles on.  On the dictionaries of [assign_instruments] the key
    [task_id] is absent, so the raw id is
    [str(inst["id"] or "").strip()]. *)
Definition final_id (idx : N) (used_ids : gset pystr) (inst : assignment)
  : pystr :=
  let raw_id := strip (a_id inst) in
  let raw_id :=
    if nonempty raw_id then raw_id else u "task-" ++ dec idx in
  if decide (raw_id ∈ used_ids)
  then unique_name raw_id used_ids
  else raw_id.

(** First loop of [normalize_assignments]: ids are finalized and the
    dependency lists cleaned; returns the final [used_ids] too. *)
Fixpoint finalize_ids (idx : N) (used_ids : gset pystr)
    (l : list assignment) : list assignment * gset pystr :=
  match l with
  | [] => ([], used_ids)
  | inst :: tl =>
      let raw_id := final_id idx used_ids inst in
      let r := finalize_ids (idx + 1) ({[raw_id]} ∪ used_ids) tl in
      (set_id_deps inst raw_id
         (normalize_dependency_list (PList (map PStr (a_deps inst))))
         :: fst r, snd r)
  end.

(** Second loop: edges to the task itself or to unknown ids go. *)
Definition filter_deps (used_ids : gset pystr) (inst : assignment)
  : assignment :=
  let deps :=
    List.filter
      (fun dep => nonempty dep && bool_decide (dep ≠ a_id inst))
      (a_deps inst) in
  set_id_deps inst (a_id inst)
    (List.filter (fun dep => bool_decide (dep ∈ used_ids)) deps).

Definition normalize_assignments (assignments : list assignment)
  : list assignment :=
  let r := finalize_ids 1 ∅ assignments in
  map (filter_deps (snd r)) (fst r).

(** The normalizer as [run] composes it: [normalize_score] (which
    calls [normalize_tasks] and [assign_instruments]) followed by
    [normalize_assignments] on its [instruments]. *)
Definition normalize_plan (score : pydict) (task : pystr)
    (instrument_pool : list pyval) : list assignment :=
  normalize_assignments
    (assign_instruments (normalize_tasks score task) instrument_pool).

(** [fallback_score(task, instruments)], the fields read here. *)
Definition fallback_score (task : pystr) : pydict :=
  [(u "title", PStr (u "分担スコア（フォールバック）"));
   (u "refined_task", PStr task);
   (u "global_notes",
     PStr (u "指揮者のJSON出力が取得できなかったため、同一タスクを分配。"));
   (u "tasks", PList [PStr task])].

End WithText.

(** Sample inputs. *)
Definition sample_score : pydict :=
  [(u "dag",
     PList [PDict [(u "id", PStr (u "a")); (u "task", PStr (u "build"));
                   (u "deps", PList [PStr (u "b"); PStr (u "a"); PStr (u "zz")])];
            PDict [(u "id", PStr (u "a")); (u "task", PStr (u "test"));
                   (u "deps", PStr (u "a"))];
            PStr (u "report")])].

Definition padded_list : list assignment :=
  [mk_assignment (u "violin") (u "build") [] (u " a") [] (u "bag")].

Definition valid_list : list assignment :=
  [mk_assignment (u "violin") (u "build") [] (u "a") [] (u "dag");
   mk_assignment (u "cello") (u "test") [] (u "b") [u "a"] (u "dag")].

End Normalizer.

(* ===================================================================== *)
(** * External processes *)
(* ===================================================================== *)

Module Proc.

(** The exceptions that occur in the modelled code. *)
Inductive exn :=
| TimeoutExpired     (* subprocess.TimeoutExpired *)
| OSError            (* the process could not be spawned *)
| AttributeError
| TypeError.

(** A computation that returns or raises. *)
Inductive result (A : Type) :=
| Ok (a : A)
| Raise (e : exn).
Arguments Ok {A} a.
Arguments Raise {A} e.

#[export] Instance result_ret : MRet result := fun A a => Ok a.

#[export] Instance result_bind : MBind result := fun A B f m =>
  match m with
  | Ok a => f a
  | Raise e => Raise e
  end.

(** What [subprocess.run(..., timeout=t)] does: it returns the completed
    process, or raises when the timeout kills the child or the spawn
    fails. *)
Inductive completion :=
| Completed (stdout stderr : pystr) (returncode : Z)
| Killed                       (* timeout exceeded *)
| SpawnFailed.

Definition subprocess_run (c : completion) : result (pystr * pystr * Z) :=
  match c with
  | Completed out err rc => Ok (out, err, rc)
  | Killed => Raise TimeoutExpired
  | SpawnFailed => Raise OSError
  end.

Inductive cli_type := claude | codex | unknown.

(** [detect_cli_type(cmd_base)] *)
Definition detect_cli_type `{PyText} (cmd_base : list pystr) : cli_type :=
  match cmd_base with
  | [] => unknown
  | _ =>
      let cmd_str := py_lower (join (u " ") cmd_base) in
      if contains (u "claude") cmd_str then claude
      else if contains (u "codex") cmd_str then codex
      else unknown
  end.

End Proc.

(* ===================================================================== *)
(** * Token budget governor *)
(* ===================================================================== *)

Module Governor.
Import Proc.

(** Python floats, as far as the governor uses them. *)
Class PyFloat := {
  pyfloat : Type;
  fzero : pyfloat;                     (* 0.0 *)
  fdiv : Z -> Z -> pyfloat;            (* a / b on ints, b <> 0 *)
  fge : pyfloat -> pyfloat -> bool     (* x >= y *)
}.

(** Exact rationals, for evaluating the model. *)
#[export] Instance exact_float : PyFloat := {|
  pyfloat := Q;
  fzero := 0%Q;
  fdiv := fun a b => (inject_Z a / inject_Z b)%Q;
  fge := fun x y => Qle_bool y x
|}.

Local Open Scope Z_scope.

(** The double nearest to an integer (ties to even), as an integer;
    integers below [2^53] in size are exact.  (Integers of [2^1024] and
    more are not convertible and are outside the model.) *)
Definition round53 (x : Z) : Z :=
  let a := Z.abs x in
  let n := Z.log2 a in
  if n <? 53 then x
  else
    let sh := n - 52 in
    let q := Z.shiftr a sh in
    let r := a - Z.shiftl q sh in
    let half := Z.shiftl 1 (sh - 1) in
    let q' := if (half <? r) || ((r =? half) && Z.odd q) then q + 1 else q in
    Z.sgn x * Z.shiftl q' sh.

(** [int(x * 0.5)] *)
Definition discount (x : Z) : Z := Z.quot (round53 x) 2.

Record usage_entry := mk_usage_entry {
  h_label : pystr;
  h_input : Z;
  h_output : Z;
  h_combined : Z;
  h_cumulative : Z
}.

Section WithFloat.
Context {float : PyFloat}.

(** The dataclass [TokenUsage]; its two callbacks are fixed by [run]
    to [on_warning_once] and [on_compact_once] before the first call. *)
Record TokenUsage := mk_TokenUsage {
  total_input : Z;
  total_output : Z;
  total_combined : Z;
  call_count : Z;
  history : list usage_entry;
  warning_threshold : pyfloat;
  compact_threshold : pyfloat;
  max_tokens : Z
}.

Definition usage_ratio (t : TokenUsage) : pyfloat :=
  if max_tokens t <=? 0 then fzero
  else fdiv (total_combined t) (max_tokens t).

Definition set_totals (t : TokenUsage) (i o c : Z) : TokenUsage :=
  mk_TokenUsage i o c (call_count t) (history t)
    (warning_threshold t) (compact_threshold t) (max_tokens t).

(** One entry of [compact_events.json]. *)
Record compact_event := mk_compact_event {
  ev_attempt : Z;
  ev_results : list (pystr * (cli_type * bool));
  ev_any_success : bool;
  ev_usage_before : Z
}.

(** Lines printed to stderr by the governor. *)
Inductive notice :=
| TokenWarning
| CompactLimitReached (limit : Z)
| CompactStarting (attempt limit : Z)
| CompactDone (name : pystr) (kind : cli_type)
| CompactFailed (name : pystr) (kind : cli_type).

(** The variables [run] closes its callbacks over, with what the
    callbacks write: stderr, the stage of each [status.json] they
    write, and the event log. *)
Record hooks := mk_hooks {
  compact_attempts : Z;
  warning_fired : bool;
  compact_fired : bool;
  stderr : list notice;
  status_stages : list pystr;
  compact_events : list compact_event
}.

Record config := mk_config {
  max_compact_attempts : Z;
  rewriter_cmd : list pystr;
  concertmaster_cmd : list pystr;
  performer_cmd : list pystr
}.

Definition initial_hooks : hooks := mk_hooks 0 false false [] [] [].

Definition initial_tracker (max : Z) (warn compact : pyfloat) : TokenUsage :=
  mk_TokenUsage 0 0 0 0 [] warn compact max.

(** The processes one mitigation cycle runs into: for each role, the
    completions of the first and of the second compact command. *)
Definition compact_env := pystr -> completion * completion.

Definition succeeded (c : completion) : result bool :=
  r ← subprocess_run c; Ok (snd r =? 0).

(** [call_compact_command(cmd_base, run_dir, verbose)]: every
    exception of the subprocess is caught and reported as failure. *)
Definition call_compact_command `{PyText} (cmd_base : list pystr)
    (runs : completion * completion) : bool :=
  match detect_cli_type cmd_base with
  | claude =>
      match succeeded (fst runs) with
      | Ok b => b
      | Raise _ => false
      end
  | codex =>
      match
        (ok1 ← succeeded (fst runs);
         if ok1 : bool then Ok true else succeeded (snd runs)) : result bool
      with
      | Ok b => b
      | Raise _ => false
      end
  | unknown => false
  end.

Definition push_notice (h : hooks) (n : notice) : hooks :=
  mk_hooks (compact_attempts h) (warning_fired h) (compact_fired h)
    (stderr h ++ [n]) (status_stages h) (compact_events h).

(** [on_token_warning(tracker)] *)
Definition on_token_warning (h : hooks) : hooks :=
  mk_hooks (compact_attempts h) (warning_fired h) (compact_fired h)
    (stderr h ++ [TokenWarning])
    (status_stages h ++ [u "token_warning"]) (compact_events h).

(** The [for name, cmd_base in cmd_bases] loop of [on_compact_needed]. *)
Fixpoint compact_all `{PyText} (env : compact_env)
    (cmd_bases : list (pystr * list pystr))
  : list (pystr * (cli_type * bool)) * list notice :=
  match cmd_bases with
  | [] => ([], [])
  | (name, cmd_base) :: tl =>
      let rest := compact_all env tl in
      match detect_cli_type cmd_base with
      | unknown => rest
      | kind =>
          let success := call_compact_command cmd_base (env name) in
          ((name, (kind, success)) :: fst rest,
           (if success then CompactDone name kind
            else CompactFailed name kind) :: snd rest)
      end
  end.

(** [on_compact_needed(tracker)] *)
Definition on_compact_needed `{PyText} (cfg : config) (env : compact_env)
    (t : TokenUsage) (h : hooks) : TokenUsage * hooks :=
  if max_compact_attempts cfg <=? compact_attempts h then
    (t, push_notice h (CompactLimitReached (max_compact_attempts cfg)))
  else
    let attempt := compact_attempts h + 1 in
    let r :=
      compact_all env
        [(u "rewriter", rewriter_cmd cfg);
         (u "concertmaster", concertmaster_cmd cfg);
         (u "performer", performer_cmd cfg)] in
    let any_success := existsb (fun e => snd (snd e)) (fst r) in
    let t' :=
      if any_success
      then
        let c := discount (total_combined t) in
        let i := discount (total_input t) in
        let o := discount (total_output t) in
        set_totals t i o c
      else t in
    (t',
     mk_hooks attempt (warning_fired h) (compact_fired h)
       (stderr h
        ++ [CompactStarting attempt (max_compact_attempts cfg)] ++ snd r)
       (status_stages h)
       (compact_events h
        ++ [mk_compact_event attempt (fst r) any_success
              (total_combined t')])).

Definition set_compact_fired (h : hooks) (b : bool) : hooks :=
  mk_hooks (compact_attempts h) (warning_fired h) b
    (stderr h) (status_stages h) (compact_events h).

Definition set_warning_fired (h : hooks) (b : bool) : hooks :=
  mk_hooks (compact_attempts h) b (compact_fired h)
    (stderr h) (status_stages h) (compact_events h).

(** [on_warning_once(tracker)] *)
Definition on_warning_once (h : hooks) : hooks :=
  if warning_fired h then h
  else on_token_warning (set_warning_fired h true).

(** [on_compact_once(tracker)] *)
Definition on_compact_once `{PyText} (cfg : config) (env : compact_env)
    (t : TokenUsage) (h : hooks) : TokenUsage * hooks :=
  if compact_fired h then (t, h)
  else
    let r := on_compact_needed cfg env t (set_compact_fired h true) in
    (fst r, set_compact_fired (snd r) false).

(** [_check_thresholds()] *)
Definition check_thresholds `{PyText} (cfg : config) (env : compact_env)
    (t : TokenUsage) (h : hooks) : TokenUsage * hooks :=
  let ratio := usage_ratio t in
  if fge ratio (compact_threshold t) then on_compact_once cfg env t h
  else if fge ratio (warning_threshold t) then (t, on_warning_once h)
  else (t, h).

(** [add_usage(input_tokens, output_tokens, label)] *)
Definition add_usage `{PyText} (cfg : config) (env : compact_env)
    (input_tokens output_tokens : Z) (label : pystr)
    (t : TokenUsage) (h : hooks) : TokenUsage * hooks :=
  let combined := input_tokens + output_tokens in
  let t1 :=
    mk_TokenUsage (total_input t + input_tokens)
      (total_output t + output_tokens)
      (total_combined t + combined)
      (call_count t + 1)
      (history t
       ++ [mk_usage_entry label input_tokens output_tokens combined
             (total_combined t + combined)])
      (warning_threshold t) (compact_threshold t) (max_tokens t) in
  check_thresholds cfg env t1 h.

(** The attempt counter counts the logged cycles and stays within
    the budget. *)
Definition within_budget (cfg : config) (h : hooks) : Prop :=
  compact_attempts h = Z.of_nat (length (compact_events h))
  /\ compact_attempts h <= Z.max 0 (max_compact_attempts cfg).

(** One recorded call, with the processes a mitigation would meet. *)
Record call := mk_call {
  c_input : Z;
  c_output : Z;
  c_label : pystr;
  c_env : compact_env
}.

(** A whole run of the governor: the calls in the order they finish. *)
Fixpoint record_all `{PyText} (cfg : config) (calls : list call)
    (t : TokenUsage) (h : hooks) : TokenUsage * hooks :=
  match calls with
  | [] => (t, h)
  | c :: tl =>
      let r := add_usage cfg (c_env c) (c_input c) (c_output c)
                 (c_label c) t h in
      record_all cfg tl (fst r) (snd r)
  end.

End WithFloat.

(** Sample configuration, processes and ledgers. *)
Definition claude_config (limit : Z) : config :=
  mk_config limit [u "claude"; u "-p"] [u "codex"; u "exec"]
    [u "codex"; u "exec"].

Definition compact_ok : compact_env :=
  fun _ => (Completed [] [] 0, Completed [] [] 0).

Definition sample_tracker : TokenUsage (float:=exact_float) :=
  initial_tracker 100 (3 # 4)%Q (85 # 100)%Q.

(** The ledger after one call of 100 input tokens and an empty reply. *)
Definition input_only_tracker : TokenUsage (float:=exact_float) :=
  mk_TokenUsage 100 0 100 1
    [mk_usage_entry (u "rewriter") 100 0 100 100]
    (3 # 4)%Q (85 # 100)%Q 100.

(** The callbacks' variables after one mitigation cycle. *)
Definition spent_hooks : hooks :=
  mk_hooks 1 false false [] []
    [mk_compact_event 1 [(u "rewriter", (claude, true))] true 50].

End Governor.

(* ===================================================================== *)
(** * Exchange record and the supervisor / executor loops *)
(* ===================================================================== *)

Module Exchange.
Import Proc Regex.
Import Normalizer(nonempty).

Local Open Scope Z_scope.

(** Library and helper functions the loops call but whose results are
    opaque text to the state machine: [extract_yaml] (PyYAML on the
    agent's output; [None] stands for its exception), and the two token
    estimators of [run_external]. *)
Class PyYaml := {
  extract_yaml : pystr -> option pydict;
  estimate_tokens : pystr -> Z;
  parse_token_usage : pystr -> Z * Z
}.

Inductive status :=
| waiting_for_concertmaster
| waiting_for_performer
| waiting_for_user
| done
| error.

#[export] Instance status_eq_dec : EqDecision status.
Proof. solve_decision. Defined.

Record message := mk_message {
  m_role : pystr;
  m_type : pystr;
  m_content : pyval
}.

(** The [pending] mapping of an exchange record. *)
Record pending := mk_pending {
  p_type : pystr;
  p_question : pystr;
  p_reason : pystr;
  p_options : list pystr;
  p_ok_reply : pystr;
  p_ng_reply : pystr;
  p_choice_reply_template : pystr;
  p_user_reply : pystr;
  p_user_choice : pystr;
  p_user_approved : bool
}.

(** The record of one task; [x_pending = None] is the empty mapping. *)
Record exchange := mk_exchange {
  x_status : status;
  x_turn : Z;
  x_history : list message;
  x_pending : option pending
}.

(** [init_exchange(path, performer)] *)
Definition init_exchange : exchange :=
  mk_exchange waiting_for_concertmaster 0 [] None.

(** [append_exchange_message(data, role, content, msg_type)] *)
Definition append_exchange_message (d : exchange) (role : pystr)
    (content : pyval) (msg_type : pystr) : exchange :=
  mk_exchange (x_status d) (x_turn d)
    (x_history d ++ [mk_message role msg_type content]) (x_pending d).

(** [get_last_message(data, role)]; [PNone] when there is none. *)
Definition get_last_message (d : exchange) (role : pystr) : pyval :=
  match find (fun m => bool_decide (m_role m = role)) (rev (x_history d)) with
  | Some m => m_content m
  | None => PNone
  end.

(** Attribute access on a YAML value: [v.get], [v.strip], iteration. *)
Definition as_dict (v : pyval) : result pydict :=
  match v with
  | PDict d => Ok d
  | _ => Raise AttributeError
  end.

Definition as_str (v : pyval) : result pystr :=
  match v with
  | PStr s => Ok s
  | _ => Raise AttributeError
  end.

Definition iterate (v : pyval) : result (list pyval) :=
  match v with
  | PList l => Ok l
  | PDict d => Ok (map (fun kv => PStr (fst kv)) d)
  | PStr s => Ok (map (fun c => PStr [c]) s)
  | _ => Raise TypeError
  end.

(** [s.replace(old, new)] for a non-empty [old]; [skip] counts the
    characters of an occurrence still to be dropped. *)
Fixpoint replace_scan (old new : pystr) (s : pystr) (skip : nat) : pystr :=
  match s with
  | [] => []
  | c :: tl =>
      match skip with
      | S n => replace_scan old new tl n
      | O =>
          if is_prefix old s
          then new ++ replace_scan old new tl (pred (length old))
          else c :: replace_scan old new tl 0
      end
  end.

Definition replace (s old new : pystr) : pystr := replace_scan old new s 0.

Section WithText.
Context {text : PyText}.

(** The three numbered-list patterns of
    [extract_choices_from_question]:
    [\((\d+)\)\s*([^(]+?)(?=\s*\(\d+\)|$)],
    [(?:^|\s)(\d+)\.\s*([^0-9]+?)(?=\s*\d+\.|$)],
    [(?:^|\s)(\d+)\)\s*([^0-9]+?)(?=\s*\d+\)|$)]. *)
Definition pattern_paren : re :=
  Seq (Chr (lit 40))
    (Seq (Group 1 (plus digit))
       (Seq (Chr (lit 41))
          (Seq (Star space)
             (Seq (Group 2 (plus_lazy (not_lit 40)))
                (Look (Alt (Seq (Star space)
                              (Seq (Chr (lit 40))
                                 (Seq (plus digit) (Chr (lit 41)))))
                         Eol)))))).

Definition pattern_numbered (closer : N) : re :=
  Seq (Alt Bol (Chr space))
    (Seq (Group 1 (plus digit))
       (Seq (Chr (lit closer))
          (Seq (Star space)
             (Seq (Group 2 (plus_lazy not_09))
                (Look (Alt (Seq (Star space)
                              (Seq (plus digit) (Chr (lit closer))))
                         Eol)))))).

Definition patterns : list re :=
  [pattern_paren; pattern_numbered 46; pattern_numbered 41].

Fixpoint first_listing (ps : list re) (question : pystr) : list pystr :=
  match ps with
  | [] => []
  | p :: tl =>
      let matches := findall2 p question in
      if (2 <=? length matches)%nat
      then map (fun m => fst m ++ u ": " ++ strip (snd m)) matches
      else first_listing tl question
  end.

Definition extract_choices_from_question (question : pystr) : list pystr :=
  first_listing patterns question.

(** [str(v) if v else ""] *)
Definition str_or_empty (v : pyval) : pystr :=
  if truthy v then py_str v else [].

(** The mapping [normalize_confirm_payload] returns. *)
Record confirm_payload := mk_confirm_payload {
  c_type : pystr;
  c_question : pystr;
  c_reason : pystr;
  c_options : list pystr;
  c_ok_reply : pystr;
  c_ng_reply : pystr;
  c_choice_reply_template : pystr
}.

Definition known_type (t : pystr) : bool :=
  bool_decide (t = u "ok_ng") || bool_decide (t = u "choice")
  || bool_decide (t = u "free_text").

Definition normalize_confirm_payload (action_data : pydict)
  : result confirm_payload :=
  confirm ← as_dict (por (get action_data (u "confirm")) (PDict []));
  type_text ← as_str (por (get confirm (u "type"))
                        (por (get action_data (u "confirm_type")) (PStr [])));
  let confirm_type := py_lower (strip type_text) in
  let question :=
    por (get confirm (u "question"))
      (por (get action_data (u "question")) (PStr [])) in
  let reason :=
    por (get confirm (u "reason"))
      (por (get action_data (u "reason")) (PStr [])) in
  let question :=
    if truthy question then question
    else PStr (u "確認内容が未設定です") in
  let options :=
    por (get confirm (u "options"))
      (por (get confirm (u "choices"))
         (por (get action_data (u "options"))
            (por (get action_data (u "choices")) (PList [])))) in
  let options :=
    match options with
    | PStr _ => PList [options]
    | _ => options
    end in
  items ← iterate options;
  let options := map py_str (List.filter truthy items) in
  let options :=
    match options with
    | [] =>
        match extract_choices_from_question (py_str question) with
        | [] => options
        | extracted => extracted
        end
    | _ => options
    end in
  let confirm_type :=
    if known_type confirm_type then confirm_type
    else match options with
         | [] => u "ok_ng"
         | _ => u "choice"
         end in
  let ok_reply :=
    por (get confirm (u "ok_reply"))
      (por (get action_data (u "ok_reply"))
         (por (get action_data (u "reply")) (PStr []))) in
  let ng_reply :=
    por (get confirm (u "ng_reply"))
      (por (get action_data (u "ng_reply")) (PStr [])) in
  let choice_template :=
    por (get confirm (u "choice_reply_template"))
      (por (get action_data (u "choice_reply_template")) (PStr [])) in
  Ok (mk_confirm_payload confirm_type (py_str question)
        (str_or_empty reason) options (str_or_empty ok_reply)
        (str_or_empty ng_reply) (str_or_empty choice_template)).

(** The replies accepted as approval. *)
Definition approvals : list pystr :=
  [u "ok"; u "yes"; u "y"; u "true"; u "1"; u "承認"; u "はい"].

Definition or_str (a b : pystr) : pystr := if nonempty a then a else b.

(** The decision of the ok_ng branch: the reply, or the approval
    flag as OK / NG when there is no reply. *)
Definition decision_text (p : pending) : pystr :=
  if nonempty (p_user_reply p) then p_user_reply p
  else if p_user_approved p then u "OK" else u "NG".

(** What the ok_ng branch returns on approval. *)
Definition approval_reply (p : pending) : pystr :=
  if nonempty (p_ok_reply p) then p_ok_reply p
  else if nonempty (p_question p) then
    u "ユーザーへの質問「" ++ p_question p
      ++ u "」に対する回答: OK（承認）。提案通り進めてください。"
  else u "ユーザー回答: OK。提案通り進めてください。".

(** What the ok_ng branch returns otherwise. *)
Definition rejection_reply (p : pending) : pystr :=
  if nonempty (p_ng_reply p) then p_ng_reply p
  else if nonempty (p_question p) then
    u "ユーザーへの質問「" ++ p_question p
      ++ u "」に対する回答: NG（却下）。修正案を提示してください。"
  else u "ユーザー回答: NG。修正案を提示してください。".

(** [build_reply_from_pending(pending)] *)
Definition build_reply_from_pending (p : pending) : pystr :=
  let pending_type := py_lower (strip (or_str (p_type p) (u "ok_ng"))) in
  let question := p_question p in
  if bool_decide (pending_type = u "choice") then
    let choice := or_str (p_user_choice p) (p_user_reply p) in
    let template := p_choice_reply_template p in
    if nonempty template then replace template (u "{choice}") choice
    else if nonempty question then
      u "ユーザーへの質問「" ++ question ++ u "」に対する選択: " ++ choice
        ++ u "。この選択で進めてください。"
    else u "ユーザー選択: " ++ choice ++ u "。この選択で進めてください。"
  else if bool_decide (pending_type = u "free_text") then
    let user_text := p_user_reply p in
    if nonempty question then
      u "ユーザーへの質問「" ++ question ++ u "」に対する回答: " ++ user_text
        ++ u "。この回答に基づいて進めてください。"
    else u "ユーザー回答: " ++ user_text
  else
    let normalized := py_lower (strip (decision_text p)) in
    if bool_decide (normalized ∈ approvals)
    then approval_reply p
    else rejection_reply p.

Context {yaml : PyYaml}.

(** [parse_action_output(text)] *)
Definition parse_action_output (text : pystr) : pydict :=
  match extract_yaml text with
  | Some d => d
  | None =>
      [(u "action", PStr (u "reply"));
       (u "reply", PStr (strip text));
       (u "reason", PStr (u "YAML解析に失敗したため全文を返却"))]
  end.

(** [command_uses(cmd_tmpl, placeholder)] *)
Definition command_uses (cmd_tmpl : list pystr) (placeholder : pystr) : bool :=
  existsb (contains (u "{" ++ placeholder ++ u "}")) cmd_tmpl.

(** The mapping [run_external] returns (without the formatted
    command line). *)
Record run_result := mk_run_result {
  r_stdout : pystr;
  r_stderr : pystr;
  r_returncode : Z;
  r_used_stdin : bool;
  r_tokens_input : Z;
  r_tokens_output : Z
}.

(** [run_external(cmd_tmpl, prompt, run_dir, label, timeout_sec,
    dry_run, ...)], given what the child process does.  The call of
    [subprocess.run] is not inside any [try]: what it raises leaves
    [run_external].  The caller's tracker receives
    [add_usage(r_tokens_input, r_tokens_output)] on the last path only. *)
Definition run_external (cmd_tmpl : list pystr) (prompt : pystr)
    (dry_run : bool) (child : completion) : result run_result :=
  match cmd_tmpl with
  | [] => Ok (mk_run_result [] (u "コマンドが未設定です。") 1 false 0 0)
  | _ =>
      let used_stdin :=
        negb (command_uses cmd_tmpl (u "prompt")
              || command_uses cmd_tmpl (u "prompt_file")) in
      if dry_run then Ok (mk_run_result [] [] 0 used_stdin 0 0)
      else
        r ← subprocess_run child;
        let out := fst (fst r) in
        let input_tokens := estimate_tokens prompt in
        let parsed := parse_token_usage out in
        let output_tokens :=
          if snd parsed =? 0 then estimate_tokens out else snd parsed in
        let input_tokens :=
          if fst parsed =? 0 then input_tokens else fst parsed in
        Ok (mk_run_result out (snd (fst r)) (snd r) used_stdin
              input_tokens output_tokens)
  end.

(** What a worker thread is given. [w_prompt] stands for the prompt
    templates, which only feed the token estimate. *)
Record worker := mk_worker {
  w_cmd : list pystr;
  w_dry_run : bool;
  w_max_turns : Z;
  w_prompt : exchange -> pystr
}.

Definition set_status (d : exchange) (s : status) : exchange :=
  mk_exchange s (x_turn d) (x_history d) (x_pending d).

Definition set_pending (d : exchange) (p : option pending) : exchange :=
  mk_exchange (x_status d) (x_turn d) (x_history d) p.

Definition bump_turn (d : exchange) : exchange :=
  mk_exchange (x_status d) (x_turn d + 1) (x_history d) (x_pending d).

(** The update functions of [concertmaster_worker]. *)
Definition apply_user (reply : pystr) (d : exchange) : exchange :=
  bump_turn
    (set_pending
       (set_status
          (append_exchange_message d (u "concertmaster") (PStr reply)
             (u "prompt"))
          waiting_for_performer)
       None).

Definition force_done (d : exchange) : exchange := set_status d done.

Definition apply_done (action_data : pydict) (d : exchange) : exchange :=
  set_pending
    (set_status
       (append_exchange_message d (u "concertmaster")
          (get_default action_data (u "reason") (PStr [])) (u "review"))
       done)
    None.

Definition apply_user_wait (action_data : pydict) (confirm : confirm_payload)
    (d : exchange) : exchange :=
  set_pending
    (set_status
       (append_exchange_message d (u "concertmaster")
          (get_default action_data (u "reason") (PStr [])) (u "review"))
       waiting_for_user)
    (Some (mk_pending (c_type confirm) (c_question confirm)
             (c_reason confirm) (c_options confirm) (c_ok_reply confirm)
             (c_ng_reply confirm) (c_choice_reply_template confirm)
             [] [] false)).

Definition apply_reply (reply : pystr) (d : exchange) : exchange :=
  bump_turn
    (set_pending
       (set_status
          (append_exchange_message d (u "concertmaster") (PStr reply)
             (u "prompt"))
          waiting_for_performer)
       None).

(** [pending.get("user_reply") or pending.get("user_choice")
     or pending.get("user_approved")] *)
Definition has_decision (p : option pending) : bool :=
  match p with
  | Some p =>
      nonempty (p_user_reply p) || nonempty (p_user_choice p)
      || p_user_approved p
  | None => false
  end.

Inductive control := Continue | Break.

(** One round of the [while] loop of [concertmaster_worker]: [turn] is
    the loop's own counter, [data] the record as read, [child] what
    the agent process does if it is called.  The record returned is
    the record as written (unchanged when the round only waits). *)
Definition concertmaster_round (w : worker) (turn : Z) (data : exchange)
    (child : completion) : result (control * Z * exchange) :=
  match x_status data with
  | done | error => Ok (Break, turn, data)
  | waiting_for_user =>
      if has_decision (x_pending data) then
        match x_pending data with
        | Some p =>
            Ok (Continue, turn, apply_user (build_reply_from_pending p) data)
        | None => Ok (Continue, turn, data)
        end
      else Ok (Continue, turn, data)
  | waiting_for_performer => Ok (Continue, turn, data)
  | waiting_for_concertmaster =>
      if w_max_turns w <=? turn then Ok (Break, turn, force_done data)
      else
        r ← run_external (w_cmd w) (w_prompt w data) (w_dry_run w) child;
        let output := strip (r_stdout r) in
        let action_data := parse_action_output output in
        action_text ← as_str (por (get action_data (u "action"))
                                (PStr (u "reply")));
        let action := strip action_text in
        reply_text ← as_str (por (get action_data (u "reply")) (PStr []));
        let reply := strip reply_text in
        if bool_decide (action = u "done") then
          Ok (Break, turn, apply_done action_data data)
        else if bool_decide (action = u "needs_user_confirm") then
          confirm ← normalize_confirm_payload action_data;
          Ok (Continue, turn, apply_user_wait action_data confirm data)
        else
          let reply := if nonempty reply then reply else u "続けてください。" in
          Ok (Continue, turn + 1, apply_reply reply data)
  end.

Definition apply_output (output : pystr) (d : exchange) : exchange :=
  set_status
    (append_exchange_message d (u "performer") (PStr output) (u "response"))
    waiting_for_concertmaster.

(** One round of the loop of [performer_worker]. *)
Definition performer_round (w : worker) (turn : Z) (data : exchange)
    (child : completion) : result (control * Z * exchange) :=
  match x_status data with
  | done | error => Ok (Break, turn, data)
  | waiting_for_performer =>
      r ← run_external (w_cmd w) (w_prompt w data) (w_dry_run w) child;
      Ok (Continue, turn + 1, apply_output (strip (r_stdout r)) data)
  | _ => Ok (Continue, turn, data)
  end.

(** [update_exchange_reply] of the dashboard: the human decision
    written into the pending mapping. *)
Definition update_exchange_reply (reply : pystr) (approved : bool)
    (choice : pystr) (d : exchange) : exchange :=
  let p :=
    match x_pending d with
    | Some p => p
    | None => mk_pending [] [] [] [] [] [] [] [] [] false
    end in
  set_pending d
    (Some (mk_pending (p_type p) (p_question p) (p_reason p) (p_options p)
             (p_ok_reply p) (p_ng_reply p) (p_choice_reply_template p)
             reply
             (if nonempty choice then choice else p_user_choice p)
             approved)).

(** A task pair with its record: the two threads and what each has
    counted. *)
Inductive thread := Alive | Returned | Died (e : exn).

Record pair := mk_pair {
  record : exchange;
  cm_thread : thread;
  cm_turn : Z;
  pf_thread : thread;
  pf_turn : Z
}.

Inductive event :=
| Supervisor (child : completion)    (* a round of concertmaster_worker *)
| Executor (child : completion)      (* a round of performer_worker *)
| Human (reply : pystr) (approved : bool) (choice : pystr).

Definition start_pair : pair := mk_pair init_exchange Alive 0 Alive 0.

Definition step (cm pf : worker) (s : pair) (e : event) : pair :=
  match e with
  | Supervisor child =>
      match cm_thread s with
      | Alive =>
          match concertmaster_round cm (cm_turn s) (record s) child with
          | Ok (Continue, t, d) => mk_pair d Alive t (pf_thread s) (pf_turn s)
          | Ok (Break, t, d) => mk_pair d Returned t (pf_thread s) (pf_turn s)
          | Raise e =>
              mk_pair (record s) (Died e) (cm_turn s) (pf_thread s) (pf_turn s)
          end
      | _ => s
      end
  | Executor child =>
      match pf_thread s with
      | Alive =>
          match performer_round pf (pf_turn s) (record s) child with
          | Ok (Continue, t, d) => mk_pair d (cm_thread s) (cm_turn s) Alive t
          | Ok (Break, t, d) => mk_pair d (cm_thread s) (cm_turn s) Returned t
          | Raise e =>
              mk_pair (record s) (cm_thread s) (cm_turn s) (Died e) (pf_turn s)
          end
      | _ => s
      end
  | Human reply approved choice =>
      mk_pair (update_exchange_reply reply approved choice (record s))
        (cm_thread s) (cm_turn s) (pf_thread s) (pf_turn s)
  end.

Definition run_events (cm pf : worker) (events : list event) : pair :=
  fold_left (step cm pf) events start_pair.

End WithText.

(** A reader of flat [key: value] documents with plain string scalars,
    for evaluating the model on sample agent outputs; token estimates
    count characters. *)
Fixpoint split_colon (key : pystr) (line : pystr) : option (pystr * pystr) :=
  match line with
  | [] => None
  | c :: tl =>
      if (c =? 58)%N
      then Some (rev key, strip tl)
      else split_colon (c :: key) tl
  end.

Fixpoint flat_mapping (lines : list pystr) : option pydict :=
  match lines with
  | [] => Some []
  | l :: tl =>
      match split_colon [] l, flat_mapping tl with
      | Some (k, v), Some d => Some ((k, PStr v) :: d)
      | _, _ => None
      end
  end.

#[export] Instance flat_yaml : PyYaml := {|
  extract_yaml := fun text =>
    match splitlines text with
    | [] => None
    | lines => flat_mapping lines
    end;
  estimate_tokens := fun s => Z.of_nat (length s);
  parse_token_usage := fun _ => (0, 0)
|}.

(** Sample workers and agent outputs. *)
Definition sample_worker (max_turns : Z) : worker :=
  mk_worker [u "agent"] false max_turns (fun _ => u "prompt").

Definition says (out : pystr) : completion := Completed out [] 0.

Definition asks_confirmation : completion :=
  says (u "action: needs_user_confirm
question: Deploy now?").

Definition listing_envelope : pydict :=
  [(u "action", PStr (u "needs_user_confirm"));
   (u "question", PStr (u "(1) A (2) B"))].

(** A binary confirmation answered "Yes" with the approval flag unset. *)
Definition yes_pending : pending :=
  mk_pending (u "ok_ng") (u "Deploy now?") [] [] [] [] [] (u " Yes ") [] false.

Definition turn_overrun : list event :=
  [Supervisor asks_confirmation; Human (u "OK") true [];
   Supervisor (says []);
   Executor (says (u "deployed"));
   Supervisor asks_confirmation; Human (u "OK") true [];
   Supervisor (says [])].

End Exchange.

(* ===================================================================== *)
(** * Scheduler loop of [run] *)
(* ===================================================================== *)

Module Scheduler.
Import Normalizer.

Inductive lifecycle := pending | running | done | error.

#[export] Instance lifecycle_eq_dec : EqDecision lifecycle.
Proof. solve_decision. Defined.

(** An element of [task_states]. *)
Record task_state := mk_task_state {
  ts_index : nat;
  ts_id : pystr;
  ts_deps : list pystr;
  ts_status : lifecycle
}.

(** The scheduler's variables: [task_states] and [done_ids]. *)
Record sched := mk_sched {
  task_states : list task_state;
  done_ids : gset pystr
}.

Fixpoint task_states_from (idx : nat) (assignments : list assignment)
  : list task_state :=
  match assignments with
  | [] => []
  | inst :: tl =>
      mk_task_state idx
        (if nonempty (a_id inst) then a_id inst
         else u "task-" ++ dec (N.of_nat (idx + 1)))
        (a_deps inst) pending
        :: task_states_from (S idx) tl
  end.

Definition initial (assignments : list assignment) : sched :=
  mk_sched (task_states_from 0 assignments) ∅.

(** [deps_done(state)] *)
Definition deps_done (done_ids : gset pystr) (state : task_state) : bool :=
  forallb (fun dep => bool_decide (dep ∈ done_ids)) (ts_deps state).

Definition set_lifecycle (state : task_state) (l : lifecycle) : task_state :=
  mk_task_state (ts_index state) (ts_id state) (ts_deps state) l.

(** "Start ready tasks": [start_task] creates the record, starts the two
    threads and marks the task running. *)
Definition start_ready (s : sched) : sched :=
  mk_sched
    (map (fun state =>
            if bool_decide (ts_status state = pending)
               && deps_done (done_ids s) state
            then set_lifecycle state running
            else state)
       (task_states s))
    (done_ids s).

(** What the scheduler reads in a task's record. *)
Definition reading := nat -> Exchange.status.

(** "Update completion counts": the states are visited in order. *)
Fixpoint reconcile (read : reading) (states : list task_state)
    (done_ids : gset pystr) : list task_state * gset pystr :=
  match states with
  | [] => ([], done_ids)
  | state :: tl =>
      let '(state', done') :=
        match ts_status state with
        | running =>
            match read (ts_index state) with
            | Exchange.done =>
                (set_lifecycle state done, {[ts_id state]} ∪ done_ids)
            | Exchange.error => (set_lifecycle state error, done_ids)
            | _ => (state, done_ids)
            end
        | _ => (state, done_ids)
        end in
      let r := reconcile read tl done' in
      (state' :: fst r, snd r)
  end.

Definition count (l : lifecycle) (states : list task_state) : nat :=
  length (List.filter (fun st => bool_decide (ts_status st = l)) states).

Inductive exit :=
| AllDone          (* done_count >= len(assignments) *)
| NothingLeft      (* nothing running, nothing pending *)
| Deadlock.        (* nothing running, something pending *)

Inductive notice := DeadlockWarning.

(** How the loop ends: the exit taken, the final variables, what was
    printed, and the number of [performer] status writes. *)
Record outcome := mk_outcome {
  o_exit : exit;
  o_sched : sched;
  o_stderr : list notice;
  o_writes : nat
}.

(** One pass of the body of [while True]; [None] when it reaches
    [time.sleep] and goes round again. *)
Definition pass (verbose : bool) (read : reading) (s : sched)
  : sched * option (exit * list notice) :=
  let s1 := start_ready s in
  let r := reconcile read (task_states s1) (done_ids s1) in
  let s2 := mk_sched (fst r) (snd r) in
  let done_count := count done (fst r) in
  let running_count := count running (fst r) in
  let pending_count := count pending (fst r) in
  if (length (fst r) <=? done_count)%nat then (s2, Some (AllDone, []))
  else if (running_count =? 0)%nat && (pending_count =? 0)%nat
  then (s2, Some (NothingLeft, []))
  else if (running_count =? 0)%nat && (0 <? pending_count)%nat
  then (s2, Some (Deadlock, if verbose then [DeadlockWarning] else []))
  else (s2, None).

(** The loop, with the records' statuses at each pass given by [reads];
    [None] when [fuel] passes do not reach a [break]. *)
Fixpoint loop (fuel : nat) (verbose : bool) (reads : nat -> reading)
    (n : nat) (s : sched) : option outcome :=
  match fuel with
  | O => None
  | S f =>
      match pass verbose (reads n) s with
      | (s', Some (e, printed)) => Some (mk_outcome e s' printed (S n))
      | (s', None) => loop f verbose reads (S n) s'
      end
  end.

(** The variables after [n] passes that did not break. *)
Fixpoint after (n : nat) (reads : nat -> reading) (s : sched) : sched :=
  match n with
  | O => s
  | S m => fst (pass false (reads m) (after m reads s))
  end.

(** Every task whose id is in [ids] is pending and waits for an id of
    [ids], and no id of [ids] is done: a dependency cycle, or any set of
    tasks that only wait for each other. *)
Definition blocked (ids : gset pystr) (s : sched) : Prop :=
  (forall st, st ∈ task_states s -> ts_id st ∈ ids ->
     ts_status st = pending /\ exists d, d ∈ ts_deps st /\ d ∈ ids)
  /\ (forall i, i ∈ ids -> i ∉ done_ids s).

(** Every record read in this pass is in a final state. *)
Definition settled (read : reading) : Prop :=
  forall i, read i = Exchange.done \/ read i = Exchange.error.

(** Sample plans: a two-task cycle, alone and next to a free task. *)
Definition cyclic_pair : list assignment :=
  [mk_assignment (u "violin") (u "build") [] (u "a") [u "b"] (u "dag");
   mk_assignment (u "cello") (u "test") [] (u "b") [u "a"] (u "dag")].

Definition cycle_and_free : list assignment :=
  mk_assignment (u "flute") (u "lint") [] (u "c") [] (u "bag") :: cyclic_pair.

Definition always (st : Exchange.status) : nat -> reading := fun _ _ => st.

End Scheduler.

(* ===================================================================== *)
(** * Status writes of [run] *)
(* ===================================================================== *)

Module Run.
Import Governor.

Section WithFloat.
Context {float : PyFloat} {text : PyText}.

(** What [run] does, as far as the status file and the governor see
    it: a status write, or an external call that reports its token
    usage ([None] for a call that records none: dry run or empty
    command). *)
Inductive action :=
| WriteStatus (stage : pystr)
| Call (c : option call).

(** A run: the planner call, the calls finishing before each pass of
    the scheduler loop, whether the result is mixed by the planner
    (with that call), and after how many actions an exception ends
    the [try] block, if any. *)
Record scenario := mk_scenario {
  sc_rewriter : option call;
  sc_passes : list (list call);
  sc_mix : option (option call);
  sc_raise_after : option nat
}.

(** The body of the [try] block of [run]. *)
Definition script (sc : scenario) : list action :=
  [WriteStatus (u "rewriter"); Call (sc_rewriter sc); WriteStatus (u "rewriter_done")]
  ++ flat_map (fun calls => map (fun c => Call (Some c)) calls
                              ++ [WriteStatus (u "performer")])
       (sc_passes sc)
  ++ match sc_mix sc with
     | Some c => [WriteStatus (u "mix"); Call c; WriteStatus (u "mix_done")]
     | None => []
     end
  ++ [WriteStatus (u "done")].

(** [write_status(run_dir, {"stage": stage, ...})] *)
Definition write_status (h : hooks) (stage : pystr) : hooks :=
  mk_hooks (compact_attempts h) (warning_fired h) (compact_fired h)
    (stderr h) (status_stages h ++ [stage]) (compact_events h).

Definition perform (cfg : config) (a : action) (t : TokenUsage) (h : hooks)
  : TokenUsage * hooks :=
  match a with
  | WriteStatus stage => (t, write_status h stage)
  | Call (Some c) =>
      add_usage cfg (c_env c) (c_input c) (c_output c) (c_label c) t h
  | Call None => (t, h)
  end.

Fixpoint perform_all (cfg : config) (actions : list action)
    (t : TokenUsage) (h : hooks) : TokenUsage * hooks :=
  match actions with
  | [] => (t, h)
  | a :: tl =>
      let r := perform cfg a t h in
      perform_all cfg tl (fst r) (snd r)
  end.

(** The stages [run] writes to [status.json], in order. *)
Definition run_stages (cfg : config) (t : TokenUsage) (sc : scenario)
  : list pystr :=
  let h0 := write_status initial_hooks (u "initialized") in
  match sc_raise_after sc with
  | Some k =>
      let r := perform_all cfg (take k (script sc)) t h0 in
      status_stages (write_status (snd r) (u "error"))
  | None => status_stages (snd (perform_all cfg (script sc) t h0))
  end.

End WithFloat.

(** The stages of the specification. *)
Definition spec_stages : list pystr :=
  [u "initialized"; u "rewriter"; u "rewriter_done"; u "performer";
   u "mix"; u "mix_done"; u "done"; u "error"].

(** The stages the program writes: those, and the governor's warning. *)
Definition written_stages : list pystr :=
  spec_stages ++ [u "token_warning"].

(** Every stage written so far is one of them. *)
Definition stages_ok (h : hooks) : Prop :=
  Forall (fun s => s ∈ written_stages) (status_stages h).

(** The [write_status] calls of an action list use the stages of the
    specification. *)
Definition writes_ok (actions : list action) : Prop :=
  forall stage, WriteStatus stage ∈ actions -> stage ∈ spec_stages.

(** A run in which the planner call alone uses 80 of 100 tokens. *)
Definition warm_run : scenario :=
  mk_scenario (Some (mk_call 40 40 (u "rewriter") compact_ok)) [[]] None None.

End Run.

(* ===================================================================== *)
(** * The exchange protocol, as properties of a record *)
(* ===================================================================== *)

Module Protocol.
Import Proc Exchange.
Local Open Scope Z_scope.

(** The number of messages of one type in a record's history. *)
Definition count_type (msg_type : pystr) (d : exchange) : Z :=
  Z.of_nat
    (length (List.filter (fun m => bool_decide (m_type m = msg_type))
               (x_history d))).

(** The last message of the history has this role and type. *)
Definition last_is (role msg_type : pystr) (d : exchange) : Prop :=
  exists m, last (x_history d) = Some m
            /\ m_role m = role /\ m_type m = msg_type.

(** What each waiting status says about the history: the executor is
    waited for after an instruction, the supervisor at the start or
    after a response, the human after a review with a pending
    question. *)
Definition coherent (d : exchange) : Prop :=
  match x_status d with
  | waiting_for_performer => last_is (u "concertmaster") (u "prompt") d
  | waiting_for_concertmaster =>
      x_history d = [] \/ last_is (u "performer") (u "response") d
  | waiting_for_user =>
      last_is (u "concertmaster") (u "review") d /\ x_pending d <> None
  | _ => True
  end.

(** 1 while the executor is waited for, else 0. *)
Definition owed (d : exchange) : Z :=
  if bool_decide (x_status d = waiting_for_performer) then 1 else 0.

Definition final (d : exchange) : Prop :=
  x_status d = done \/ x_status d = error.

(** The record's turn counts the instructions sent, and instructions
    and responses alternate. *)
Definition in_step (d : exchange) : Prop :=
  coherent d
  /\ x_turn d = count_type (u "prompt") d
  /\ count_type (u "prompt") d = count_type (u "response") d + owed d.

(** The two workers' own counters against the record. *)
Definition counted (max_turns : Z) (s : pair) : Prop :=
  in_step (record s)
  /\ pf_turn s = count_type (u "response") (record s)
  /\ 0 <= cm_turn s <= Z.max 0 max_turns
  /\ cm_turn s <= x_turn (record s).

(** An agent that never says anything: every call returns, with blank
    standard output (a dry run, an unset command, a child that prints
    nothing). *)
Definition silent `{PyYaml} (w : worker) (child : completion) : Prop :=
  forall d : exchange,
    exists r, run_external (w_cmd w) (w_prompt w d) (w_dry_run w) child = Ok r
              /\ strip (r_stdout r) = [].

(** A worker in dry-run mode. *)
Definition dry_worker (max_turns : Z) : worker :=
  mk_worker [u "agent"] true max_turns (fun _ => u "prompt").

(** [n] exchanges of instruction and response, then one more round of
    the supervisor. *)
Definition ping_pong (n : nat) (child : completion) : list event :=
  concat (replicate n [Supervisor child; Executor child])
  ++ [Supervisor child].

End Protocol.

(* ===================================================================== *)
(** * The dashboard ([web_server.py]) *)
(* ===================================================================== *)

Module Dashboard.
Import Proc Exchange.
Import Normalizer(nonempty).

(** The process of a job as [get_run_summary] sees it: none on record,
    still running ([poll()] is [None]), or exited. *)
Inductive process := NoProcess | Running | Exited.

(** The fields of the summary that depend on the stall detection. *)
Record summary := mk_summary {
  s_stage : pystr;
  s_stalled : bool;
  s_running : bool
}.

Definition terminal_stages : list pystr :=
  [u "done"; u "error"; u "killed"; u "stalled"].

(** [x > y] on numbers of seconds. *)
Definition exceeds (x y : Q) : bool := negb (Qle_bool x y).

(** [get_run_summary(run_dir, process)]: [stage] is
    [status.get("stage")], [seconds_since_update] the age of the newest
    log file, if any. *)
Definition get_run_summary (stage : option pystr) (proc : process)
    (seconds_since_update : option Q)
    (stall_timeout stall_error_timeout : Q) : summary :=
  let shown := match stage with Some s => s | None => u "unknown" end in
  let is_running := match proc with Running => true | _ => false end in
  let is_terminal :=
    match stage with
    | Some s => bool_decide (s ∈ terminal_stages)
    | None => false
    end in
  let is_stalled :=
    if is_terminal then false
    else
      match proc with
      | Exited => true
      | _ =>
          match seconds_since_update with
          | Some t => exceeds t stall_timeout
          | None => false
          end
      end in
  if is_stalled && negb is_terminal then
    match seconds_since_update with
    | Some t =>
        if exceeds t stall_error_timeout
        then mk_summary (u "error") true false
        else mk_summary (u "stalled") true false
    | None => mk_summary (u "stalled") true false
    end
  else mk_summary shown false is_running.

Section WithText.
Context {text : PyText}.

(** The decisions [handle_exchange_reply] takes as approval. *)
Definition ok_decisions : list pystr :=
  [u "ok"; u "yes"; u "y"; u "true"; u "1"; u "承認"].

(** What [handle_exchange_reply] passes to [update_exchange_reply]
    for a request body: the reply, the approval flag, the choice. *)
Definition reply_fields (payload : pydict) : pystr * bool * pystr :=
  let decision :=
    py_lower (strip (py_str (get_default payload (u "decision") (PStr [])))) in
  let choice := strip (py_str (get_default payload (u "choice") (PStr []))) in
  let reply := strip (py_str (get_default payload (u "reply") (PStr []))) in
  let approved : option bool :=
    match get_default payload (u "approved") PNone with
    | PBool b => Some b
    | _ => None
    end in
  let ok := bool_decide (decision ∈ ok_decisions) in
  let approved := if nonempty decision then Some ok else approved in
  let reply :=
    if nonempty decision then (if ok then u "OK" else u "NG") else reply in
  let reply := if nonempty choice then choice else reply in
  let approved :=
    if nonempty choice
    then match approved with None => Some true | _ => approved end
    else approved in
  let approved := match approved with None => false | Some b => b end in
  (reply, approved, choice).

(** [handle_exchange_reply] on the record of the exchange. *)
Definition handle_exchange_reply (payload : pydict) (d : exchange)
  : exchange :=
  let f := reply_fields payload in
  update_exchange_reply (fst (fst f)) (snd (fst f)) (snd f) d.

Definition set_type_options (p : pending) (t : pystr) (o : list pystr)
  : pending :=
  mk_pending t (p_question p) (p_reason p) o (p_ok_reply p) (p_ng_reply p)
    (p_choice_reply_template p) (p_user_reply p) (p_user_choice p)
    (p_user_approved p).

(** [normalize_pending_for_api(pending)]; [None] is the empty
    mapping. *)
Definition normalize_pending_for_api (pending : option Exchange.pending)
  : option Exchange.pending :=
  match pending with
  | None => None
  | Some p =>
      let pending_type := py_lower (strip (or_str (p_type p) (u "ok_ng"))) in
      match p_options p with
      | [] =>
          if nonempty (p_question p) then
            match extract_choices_from_question (p_question p) with
            | [] => Some p
            | extracted =>
                Some (set_type_options p
                        (if bool_decide (pending_type = u "choice")
                            || bool_decide (pending_type = u "free_text")
                         then p_type p else u "choice")
                        extracted)
            end
          else Some p
      | _ => Some p
      end
  end.

(** The pending mapping [apply_user_wait] writes for a payload. *)
Definition pending_of (confirm : confirm_payload) : pending :=
  mk_pending (c_type confirm) (c_question confirm) (c_reason confirm)
    (c_options confirm) (c_ok_reply confirm) (c_ng_reply confirm)
    (c_choice_reply_template confirm) [] [] false.

End WithText.

(** Sample request bodies and a record that waits for the human. *)
Definition decision_body (decision : pystr) : pydict :=
  [(u "decision", PStr decision)].

Definition bare_rejection : pydict := [(u "approved", PBool false)].

Definition asking : exchange :=
  mk_exchange waiting_for_user 0 [] (Some yes_pending).

End Dashboard.

(* ===================================================================== *)
(** * Permission flags of the agent commands *)
(* ===================================================================== *)

Module Permissions.
Import Proc Exchange.

(** [result.insert(i, x)] *)
Definition insert_at {A : Type} (i : nat) (x : A) (l : list A) : list A :=
  take i l ++ x :: drop i l.

(** The index at which a [for i, part in enumerate(result)] loop with
    [break] stops. *)
Fixpoint first_index {A : Type} (p : A -> bool) (l : list A) : option nat :=
  match l with
  | [] => None
  | x :: tl => if p x then Some 0%nat else option_map S (first_index p tl)
  end.

(** The [for d in add_dirs] loop. *)
Fixpoint insert_dirs (insert_idx : nat) (add_dirs : list pyval)
    (result : list pyval) : list pyval :=
  match add_dirs with
  | [] => result
  | d :: tl =>
      insert_dirs (insert_idx + 2) tl
        (insert_at (insert_idx + 1) d
           (insert_at insert_idx (PStr (u "--add-dir")) result))
  end.

(** [result.insert(insert_idx, flag); insert_idx += 1] when there is a
    flag to add. *)
Definition insert_flag (flag : option pyval) (insert_idx : nat)
    (result : list pyval) : list pyval * nat :=
  match flag with
  | Some f => (insert_at insert_idx f result, S insert_idx)
  | None => (result, insert_idx)
  end.

Definition is_str (v : pyval) (s : pystr) : bool :=
  match v with
  | PStr s' => bool_decide (s' = s)
  | _ => false
  end.

Section WithText.
Context {text : PyText}.

Definition is_prompt_flag (part : pystr) : bool :=
  bool_decide (part ∈ [u "-p"; u "--print"; u "--system-prompt"]).

Definition is_exec (part : pystr) : bool := bool_decide (part = u "exec").

(** The kind the flags are chosen by: the override, or the detected
    kind. *)
Definition flag_kind (cmd : list pystr) (cli_type : option pystr)
  : Proc.cli_type :=
  match cli_type with
  | None => detect_cli_type cmd
  | Some s =>
      if bool_decide (s = u "claude") then claude
      else if bool_decide (s = u "codex") then codex
      else unknown
  end.

Definition claude_index (cmd : list pystr) : nat :=
  match first_index is_prompt_flag cmd with
  | Some i => i
  | None => 1%nat
  end.

Definition codex_index (cmd : list pystr) : nat :=
  match first_index is_exec cmd with
  | Some i => S i
  | None => 1%nat
  end.

Definition claude_flag (mode : pyval) : option pyval :=
  if is_str mode (u "bypassPermissions")
  then Some (PStr (u "--dangerously-skip-permissions"))
  else if truthy mode && negb (is_str mode (u "default"))
  then Some (PStr (u "--permission-mode=" ++ py_str mode))
  else None.

Definition codex_flag (full_auto sandbox : pyval) : option pyval :=
  if truthy full_auto then Some (PStr (u "--full-auto"))
  else if truthy sandbox
  then Some (PStr (u "--sandbox=" ++ py_str sandbox))
  else None.

(** [apply_permission_flags(cmd, permissions, cli_type)] *)
Definition apply_permission_flags (cmd : list pystr)
    (permissions : pydict) (cli_type : option pystr)
  : result (list pyval) :=
  match cmd with
  | [] => Ok []
  | _ =>
      let result := map PStr cmd in
      match flag_kind cmd cli_type with
      | unknown => Ok result
      | claude =>
          claude_perms ←
            as_dict (get_default permissions (u "claude") (PDict []));
          let mode := get claude_perms (u "mode") in
          let add_dirs :=
            get_default claude_perms (u "add_dirs") (PList []) in
          let r := insert_flag (claude_flag mode) (claude_index cmd) result in
          dirs ← iterate add_dirs;
          Ok (insert_dirs (snd r) dirs (fst r))
      | codex =>
          codex_perms ←
            as_dict (get_default permissions (u "codex") (PDict []));
          let sandbox := get codex_perms (u "sandbox") in
          let full_auto :=
            get_default codex_perms (u "full_auto") (PBool false) in
          let add_dirs :=
            get_default codex_perms (u "add_dirs") (PList []) in
          let r :=
            insert_flag (codex_flag full_auto sandbox) (codex_index cmd)
              result in
          dirs ← iterate add_dirs;
          Ok (insert_dirs (snd r) dirs (fst r))
      end
  end.

(** The flags for the directories, as they end up in the command. *)
Definition dir_flags (dirs : list pyval) : list pyval :=
  flat_map (fun d => [PStr (u "--add-dir"); d]) dirs.

End WithText.

(** A sample configuration. *)
Definition bypass_permissions : pydict :=
  [(u "claude",
     PDict [(u "mode", PStr (u "bypassPermissions"));
            (u "add_dirs", PList [PStr (u "/data")])])].

End Permissions.

(* ===================================================================== *)
(** * Progress of the scheduler loop, as properties of its variables *)
(* ===================================================================== *)

Module Progress.
Import Normalizer Scheduler.

(** Every task still running has a record in a final state. *)
Definition all_finished (read : reading) (s : sched) : Prop :=
  forall st, st ∈ task_states s -> ts_status st = running ->
             read (ts_index st) = Exchange.done
             \/ read (ts_index st) = Exchange.error.

(** No pending task can be started. *)
Definition none_ready (s : sched) : Prop :=
  forall st, st ∈ task_states s -> ts_status st = pending ->
             deps_done (done_ids s) st = false.

(** The id [d] is done, or it is the id of a running task whose record
    reads done in this pass. *)
Definition completes (read : reading) (s : sched) (d : pystr) : Prop :=
  d ∈ done_ids s
  \/ exists r, r ∈ task_states s /\ ts_status r = running /\ ts_id r = d
               /\ read (ts_index r) = Exchange.done.

(** [done_ids] holds ids of done tasks only, and every task that has
    left [pending] has all its dependencies in [done_ids]. *)
Definition consistent (s : sched) : Prop :=
  (forall i, i ∈ done_ids s ->
     exists st, st ∈ task_states s /\ ts_id st = i /\ ts_status st = done)
  /\ (forall st, st ∈ task_states s -> ts_status st <> pending ->
        forall d, d ∈ ts_deps st -> d ∈ done_ids s).

(** Every task whose id is in [ids] has failed, or is pending and waits
    for an id of [ids]; no id of [ids] is done. *)
Definition starved (ids : gset pystr) (s : sched) : Prop :=
  (forall st, st ∈ task_states s -> ts_id st ∈ ids ->
     ts_status st = error
     \/ (ts_status st = pending /\ exists d, d ∈ ts_deps st /\ d ∈ ids))
  /\ (forall i, i ∈ ids -> i ∉ done_ids s).

(** A task never runs backwards: same task, and a status that is the
    same or further on. *)
Definition advanced (st st' : task_state) : Prop :=
  ts_index st' = ts_index st /\ ts_id st' = ts_id st
  /\ ts_deps st' = ts_deps st
  /\ (ts_status st' = ts_status st
      \/ (ts_status st = pending /\ ts_status st' <> pending)
      \/ (ts_status st = running
          /\ (ts_status st' = done \/ ts_status st' = error))).

(** Sample plan: [b] depends on [a]; records that read done from pass
    [k] on. *)
Definition chain : list assignment :=
  [mk_assignment (u "violin") (u "build") [] (u "a") [] (u "dag");
   mk_assignment (u "cello") (u "test") [] (u "b") [u "a"] (u "dag")].

Definition finishes_at (k : nat) : nat -> reading :=
  fun n _ =>
    if (k <=? n)%nat then Exchange.done
    else Exchange.waiting_for_concertmaster.

(** The variables after the first pass over [chain]: [a] running. *)
Definition chain_started : sched :=
  fst (pass false (finishes_at 1 0) (initial chain)).

(** The variables once the record of [a] has read error. *)
Definition chain_failed : sched :=
  fst (pass false (always Exchange.error 0) chain_started).

End Progress.

(* ===================================================================== *)
(** * The status file over a run, as properties of the stages written *)
(* ===================================================================== *)

Module Stages.
Import Governor Run.

(** How often the warning stage occurs. *)
Definition warnings (stages : list pystr) : nat :=
  length (List.filter (fun s => bool_decide (s = u "token_warning")) stages).

(** The flag of [on_warning_once] agrees with the status file: no
    warning written while it is unset, never more than one. *)
Definition latched (h : hooks) : Prop :=
  (warning_fired h = false -> warnings (status_stages h) = 0%nat)
  /\ (warnings (status_stages h) <= 1)%nat.

(** The last stage of a run. *)
Definition final_stage `{PyFloat} (sc : scenario) : pystr :=
  match sc_raise_after sc with
  | Some _ => u "error"
  | None => u "done"
  end.

End Stages.

(* ===================================================================== *)
(** * Properties of the normalizer *)
(* ===================================================================== *)

Module NormalizerProps.
Import Normalizer.

Lemma dec_inj (n m : N) : dec n = dec m -> n = m.
Proof.
  unfold dec. intros E.
  assert (Hs : NilEmpty.string_of_uint (N.to_uint n)
               = NilEmpty.string_of_uint (N.to_uint m)).
  { rewrite <- (string_of_list_ascii_of_string
                  (NilEmpty.string_of_uint (N.to_uint n))).
    rewrite <- (string_of_list_ascii_of_string
                  (NilEmpty.string_of_uint (N.to_uint m))).
    f_equal.
    revert E.
    generalize (list_ascii_of_string (NilEmpty.string_of_uint (N.to_uint n))).
    generalize (list_ascii_of_string (NilEmpty.string_of_uint (N.to_uint m))).
    intros l2 l1. revert l2.
    induction l1 as [|a l1 IH]; intros [|b l2] E; simpl in E;
      try discriminate; [reflexivity|].
    injection E as E1 E2.
    f_equal; [|by apply IH].
    rewrite <- (ascii_N_embedding a), <- (ascii_N_embedding b).
    by rewrite E1. }
  assert (Hu : N.to_uint n = N.to_uint m).
  { apply (f_equal NilEmpty.uint_of_string) in Hs.
    rewrite !NilEmpty.usu in Hs. by injection Hs. }
  rewrite <- (DecimalN.Unsigned.of_to n), <- (DecimalN.Unsigned.of_to m).
  by rewrite Hu.
Qed.

Lemma suffixed_inj (name : pystr) (i j : N) : suffixed name i = suffixed name j -> i = j.
Proof.
  unfold suffixed. intros E.
  apply app_inv_head in E. apply app_inv_head in E. by apply dec_inj.
Qed.

Lemma suffixed_nonempty (name : pystr) idx : suffixed name idx <> [].
Proof.
  unfold suffixed. intros E. apply app_eq_nil in E as [_ E].
  vm_compute in E. discriminate.
Qed.

(** The loop of [unique_name] stops on a free name before its fuel
    runs out: [X] collects the used candidates still ahead. *)
Lemma unique_name_loop_free (name : pystr) (used : gset pystr) :
  forall fuel (X : gset pystr) idx,
    (size X < fuel)%nat ->
    (forall j, (idx <= j)%N -> suffixed name j ∈ used -> suffixed name j ∈ X) ->
    unique_name_loop fuel name used idx ∉ used.
Proof.
  induction fuel as [|f IH]; intros X idx Hsz HX; [lia|].
  simpl. destruct (decide (suffixed name idx ∈ used)) as [Hin|Hout]; [|done].
  apply (IH (X ∖ {[suffixed name idx]})).
  - assert (Hx : suffixed name idx ∈ X) by (apply HX; [lia|done]).
    assert (size X = size (X ∖ {[suffixed name idx]}) + 1)%nat.
    { rewrite (size_difference X {[suffixed name idx]}).
      - rewrite size_singleton.
        assert (size X <> 0)%nat by (apply size_non_empty_iff; set_solver).
        lia.
      - set_solver. }
    lia.
  - intros j Hj Hju. apply elem_of_difference. split.
    + apply HX; [lia|done].
    + intros Heq%elem_of_singleton. apply suffixed_inj in Heq. lia.
Qed.

Lemma unique_name_fresh (name : pystr) (used : gset pystr) : unique_name name used ∉ used.
Proof.
  unfold unique_name. destruct (decide (name ∈ used)); [|done].
  apply (unique_name_loop_free name used _ used); [lia|auto].
Qed.

Lemma unique_name_loop_suffixed (name : pystr) (used : gset pystr) fuel idx :
  exists k, unique_name_loop fuel name used idx = suffixed name k.
Proof.
  revert idx. induction fuel as [|f IH]; intros idx; simpl; [eauto|].
  destruct (decide _); eauto.
Qed.

Lemma unique_name_nonempty (name : pystr) (used : gset pystr) : name <> [] -> unique_name name used <> [].
Proof.
  intros Hn. unfold unique_name. destruct (decide _); [|done].
  destruct (unique_name_loop_suffixed name used (S (size used)) 2) as [k ->].
  apply suffixed_nonempty.
Qed.

Lemma nonempty_true s : nonempty s = true <-> s <> [].
Proof. destruct s; simpl; split; intros; congruence. Qed.

Lemma nonempty_false s : nonempty s = false <-> s = [].
Proof. destruct s; simpl; split; intros; congruence. Qed.


Section WithText.
Context {text : PyText}.

Lemma final_id_fresh (idx : N) (used : gset pystr) (inst : assignment) :
  (final_id idx used inst ∉ used) /\ final_id idx used inst <> [].
Proof.
  unfold final_id.
  set (raw1 := strip (a_id inst)).
  set (raw2 := if nonempty raw1 then raw1 else u "task-" ++ dec idx).
  assert (H2 : raw2 <> []).
  { unfold raw2. destruct (nonempty raw1) eqn:E.
    - by apply nonempty_true.
    - intros E'. apply app_eq_nil in E' as [E' _]. vm_compute in E'.
      discriminate. }
  destruct (decide (raw2 ∈ used)).
  - split; [apply unique_name_fresh | by apply unique_name_nonempty].
  - done.
Qed.

Lemma finalize_ids_spec (l : list assignment) :
  forall (idx : N) (used : gset pystr),
    length (fst (finalize_ids idx used l)) = length l
    /\ snd (finalize_ids idx used l)
       = used ∪ list_to_set (map a_id (fst (finalize_ids idx used l)))
    /\ NoDup (map a_id (fst (finalize_ids idx used l)))
    /\ (forall i, i ∈ map a_id (fst (finalize_ids idx used l)) ->
                  (i ∉ used) /\ (i <> [])).
Proof.
  induction l as [|inst tl IH]; intros idx used; cbn [finalize_ids fst snd].
  { repeat split; [set_solver | constructor | set_solver | set_solver]. }
  destruct (final_id_fresh idx used inst) as [H3 H3'].
  set (raw := final_id idx used inst) in *.
  destruct (IH (idx + 1) ({[raw]} ∪ used)) as (IHlen & IHused & IHnd & IHin).
  cbn [map length a_id set_id_deps].
  split; [by rewrite IHlen|].
  split; [rewrite IHused; set_solver|].
  split.
  - constructor; [|done]. intros Hin. apply IHin in Hin. set_solver.
  - intros i Hi. apply elem_of_cons in Hi as [->|Hin]; [done|].
    apply IHin in Hin. set_solver.
Qed.

Lemma filter_deps_id (used : gset pystr) (a : assignment) :
  a_id (filter_deps used a) = a_id a.
Proof. reflexivity. Qed.

Lemma filter_deps_deps (used : gset pystr) (a : assignment) (d : pystr) :
  d ∈ a_deps (filter_deps used a) -> d <> a_id a /\ d ∈ used.
Proof.
  unfold filter_deps. cbn [a_deps set_id_deps]. rewrite !list_elem_of_In.
  intros Hd. apply filter_In in Hd as [Hd Hu].
  apply filter_In in Hd as [_ Hd].
  apply andb_true_iff in Hd as [_ Hd].
  apply bool_decide_eq_true in Hd, Hu. done.
Qed.

Lemma normalize_assignments_ids (l : list assignment) :
  map a_id (normalize_assignments l) = map a_id (fst (finalize_ids 1 ∅ l)).
Proof.
  unfold normalize_assignments. rewrite map_map. by apply map_ext.
Qed.

Lemma normalize_assignments_length (l : list assignment) :
  length (normalize_assignments l) = length l.
Proof.
  unfold normalize_assignments. rewrite length_map.
  apply (finalize_ids_spec l 1 ∅).
Qed.

(** What [normalize_assignments] guarantees on every input. *)
Lemma normalize_assignments_sound (l : list assignment) :
  (forall a, a ∈ normalize_assignments l -> a_id a <> [])
  /\ NoDup (map a_id (normalize_assignments l))
  /\ (forall a d, a ∈ normalize_assignments l -> d ∈ a_deps a ->
        d <> a_id a /\ exists b, b ∈ normalize_assignments l /\ a_id b = d).
Proof.
  pose proof (finalize_ids_spec l 1 ∅) as (Hlen & Hused & Hnd & Hin).
  pose proof (normalize_assignments_ids l) as Hids.
  split; [|split].
  - intros a Ha. apply (Hin (a_id a)). rewrite <- Hids.
    by apply list_elem_of_fmap_2.
  - by rewrite Hids.
  - intros a d Ha Hd.
    unfold normalize_assignments in Ha.
    apply list_elem_of_fmap in Ha as (a0 & -> & _).
    apply filter_deps_deps in Hd as [Hself Hu].
    split; [done|].
    assert (Hd : d ∈ map a_id (normalize_assignments l)).
    { rewrite Hids. rewrite Hused in Hu. set_solver. }
    apply list_elem_of_fmap in Hd as (b & -> & Hb). eauto.
Qed.

Lemma assign_loop_length (tasks : list entry) :
  forall (idx : N) (used : gset pystr) (pool : list pystr),
    length (assign_loop idx used pool tasks) = length tasks.
Proof.
  induction tasks as [|t tl IH]; intros idx used pool; cbn [assign_loop];
    [done|].
  destruct (if nonempty (strip (e_preferred t)) then _ else _) as [name pool'].
  cbn [length]. by rewrite IH.
Qed.

Lemma normalize_tasks_nonempty (score : pydict) (task : pystr) :
  strip task <> [] -> normalize_tasks score task <> [].
Proof.
  intros Ht. unfold normalize_tasks.
  match goal with
  | |- (if is_nil ?t && _ then _ else _) <> [] => destruct t eqn:E
  end; cbn [is_nil andb].
  - apply nonempty_true in Ht. by rewrite Ht.
  - done.
Qed.

Lemma normalize_plan_length (score : pydict) (task : pystr)
    (pool : list pyval) :
  length (normalize_plan score task pool)
  = length (normalize_tasks score task).
Proof.
  unfold normalize_plan, assign_instruments.
  rewrite normalize_assignments_length. apply assign_loop_length.
Qed.

(** Dependency cleaning leaves a list of trimmed non-empty strings as
    it is. *)
Lemma normalize_dependency_list_trimmed (deps : list pystr) :
  (forall d, d ∈ deps -> strip d = d /\ d <> []) ->
  normalize_dependency_list (PList (map PStr deps)) = deps.
Proof.
  induction deps as [|d tl IH]; intros Hd; [done|].
  destruct (Hd d) as [Hs Hn]; [left|].
  cbn [normalize_dependency_list map omap list_omap] in *.
  rewrite Hs. apply nonempty_true in Hn. rewrite Hn.
  f_equal. apply IH. intros d' Hd'. apply Hd. by right.
Qed.

Lemma finalize_ids_valid (l : list assignment) :
  forall (idx : N) (used : gset pystr),
    (forall a, a ∈ l ->
       strip (a_id a) = a_id a /\ a_id a <> [] /\ (a_id a ∉ used)
       /\ forall d, d ∈ a_deps a -> strip d = d /\ d <> []) ->
    NoDup (map a_id l) ->
    finalize_ids idx used l = (l, used ∪ list_to_set (map a_id l)).
Proof.
  induction l as [|inst tl IH]; intros idx used Hv Hnd;
    cbn [finalize_ids map].
  { f_equal. set_solver. }
  destruct (Hv inst) as (Hs & Hn & Hu & Hd); [left|].
  assert (Hfin : final_id idx used inst = a_id inst).
  { unfold final_id. rewrite Hs. apply nonempty_true in Hn. rewrite Hn.
    by destruct (decide (a_id inst ∈ used)). }
  rewrite Hfin.
  cbn [map] in Hnd. apply NoDup_cons in Hnd as [Hni Hnd].
  rewrite (IH (idx + 1) ({[a_id inst]} ∪ used)); [| |done].
  - cbn [fst snd]. rewrite normalize_dependency_list_trimmed by done.
    f_equal; [|set_solver]. f_equal. by destruct inst.
  - intros a Ha. destruct (Hv a) as (Hs' & Hn' & Hu' & Hd'); [by right|].
    split; [done|]. split; [done|]. split; [|done].
    apply not_elem_of_union. split; [|done].
    intros Heq%elem_of_singleton. apply Hni. rewrite <- Heq.
    by apply list_elem_of_fmap_2.
Qed.

Lemma filter_all {A} (f : A -> bool) (l : list A) :
  (forall x, x ∈ l -> f x = true) -> List.filter f l = l.
Proof.
  induction l as [|x tl IH]; intros Hf; cbn [List.filter]; [done|].
  rewrite Hf by left. f_equal. apply IH. intros y Hy. apply Hf. by right.
Qed.

Lemma map_id_on {A} (f : A -> A) (l : list A) :
  (forall x, x ∈ l -> f x = x) -> map f l = l.
Proof.
  induction l as [|x tl IH]; intros Hf; cbn [map]; [done|].
  rewrite Hf by left. f_equal. apply IH. intros y Hy. apply Hf. by right.
Qed.


(** C8 (amended): on a task list whose ids are trimmed (no leading or
    trailing whitespace), non-empty and pairwise distinct, and whose
    dependency entries are trimmed and each name the id of another task
    of the list, [normalize_assignments] changes nothing: every id and
    every dependency list stays as it was. *)
Theorem C8_normalize_assignments_fixpoint (l : list assignment) :
  (forall a, a ∈ l -> strip (a_id a) = a_id a /\ a_id a <> []) ->
  NoDup (map a_id l) ->
  (forall a d, a ∈ l -> d ∈ a_deps a ->
     strip d = d /\ d <> a_id a /\ d ∈ map a_id l) ->
  normalize_assignments l = l.
Proof.
  intros Hid Hnd Hdeps.
  assert (Hne : forall a d, a ∈ l -> d ∈ a_deps a -> d <> []).
  { intros a d Ha Hd. destruct (Hdeps a d Ha Hd) as (_ & _ & Hin).
    apply list_elem_of_fmap in Hin as (b & -> & Hb). by apply Hid. }
  unfold normalize_assignments.
  rewrite (finalize_ids_valid l 1 ∅); [| |done].
  2:{ intros a Ha. destruct (Hid a Ha) as [Hs Hn].
      split; [done|]. split; [done|]. split; [set_solver|].
      intros d Hd. split; [by apply (Hdeps a)|by apply (Hne a)]. }
  cbn [fst snd]. apply map_id_on. intros a Ha.
  unfold filter_deps.
  rewrite (filter_all _ (a_deps a)).
  - rewrite (filter_all _ (a_deps a)); [by destruct a|].
    intros d Hd. apply bool_decide_eq_true.
    destruct (Hdeps a d Ha Hd) as (_ & _ & Hin). set_solver.
  - intros d Hd. apply andb_true_iff. split.
    + apply nonempty_true. by apply (Hne a).
    + apply bool_decide_eq_true. by apply (Hdeps a).
Qed.

End WithText.



(** C8, as stated, fails on an id with surrounding whitespace: the list
    is valid in the claim's sense (non-empty unique ids, no dangling
    dependency), yet its id is rewritten. *)
Lemma C8_padded_id_counterexample :
  (forall a, a ∈ padded_list -> a_id a <> [])
  /\ NoDup (map a_id padded_list)
  /\ (forall a d, a ∈ padded_list -> d ∈ a_deps a ->
        d <> a_id a /\ d ∈ map a_id padded_list)
  /\ map a_id (normalize_assignments padded_list) <> map a_id padded_list.
Proof.
  split; [|split; [|split]].
  - intros a Ha. apply list_elem_of_singleton in Ha as ->. discriminate.
  - apply NoDup_singleton.
  - intros a d Ha Hd. apply list_elem_of_singleton in Ha as ->.
    by apply elem_of_nil in Hd.
  - vm_compute. discriminate.
Qed.

Lemma C8_normalize_assignments_fixpoint_witness :
  normalize_assignments valid_list = valid_list.
Proof.
  apply (C8_normalize_assignments_fixpoint valid_list).
  - intros a Ha. repeat (apply elem_of_cons in Ha as [->|Ha]);
      [split; [vm_compute; reflexivity|discriminate]..
      |by apply elem_of_nil in Ha].
  - repeat constructor; set_solver.
  - intros a d Ha Hd.
    repeat (apply elem_of_cons in Ha as [->|Ha]).
    + by apply elem_of_nil in Hd.
    + apply list_elem_of_singleton in Hd as ->.
      split; [vm_compute; reflexivity|]. split; [discriminate|]. set_solver.
    + by apply elem_of_nil in Ha.
Defined.

End NormalizerProps.

(* ===================================================================== *)
(** * Properties of the token governor *)
(* ===================================================================== *)

Module GovernorProps.
Import Proc Governor.
Local Open Scope Z_scope.

Lemma discount_zero : discount 0 = 0.
Proof. reflexivity. Qed.

(** Halving through a double still lands strictly below a positive
    integer, whatever the rounding. *)
Lemma discount_lt (x : Z) : 0 < x -> discount x < x.
Proof.
  intros Hx. unfold discount, round53.
  rewrite (Z.abs_eq x) by lia.
  destruct (Z.log2 x <? 53) eqn:Hn.
  { apply Z.quot_lt; lia. }
  apply Z.ltb_ge in Hn.
  set (sh := Z.log2 x - 52). assert (Hsh : 1 <= sh) by (unfold sh; lia).
  set (q := Z.shiftr x sh).
  set (q' := if _ : bool then q + 1 else q).
  assert (Hq' : q' <= q + 1) by (unfold q'; destruct (_ || _); lia).
  rewrite (Z.sgn_pos x) by lia. rewrite Z.mul_1_l.
  rewrite Z.shiftl_mul_pow2 by lia.
  replace sh with (1 + (sh - 1)) at 1 by lia.
  rewrite Z.pow_add_r by lia. change (2 ^ 1) with 2.
  set (p := 2 ^ (sh - 1)).
  assert (Hp : 0 < p) by (apply Z.pow_pos_nonneg; lia).
  replace (q' * (2 * p)) with (q' * p * 2) by lia.
  rewrite Z.quot_mul by lia.
  assert (Hpow : 2 ^ sh = 2 * p).
  { unfold p. replace sh with (1 + (sh - 1)) at 1 by lia.
    rewrite Z.pow_add_r by lia. reflexivity. }
  assert (Hqx : q * (2 * p) <= x).
  { unfold q. rewrite Z.shiftr_div_pow2 by lia. rewrite Hpow.
    rewrite Z.mul_comm. apply Z.mul_div_le. lia. }
  assert (Hq : 2 ^ 52 <= q).
  { unfold q. rewrite Z.shiftr_div_pow2 by lia.
    assert (Hlog : 2 ^ Z.log2 x <= x) by (apply Z.log2_spec; lia).
    replace (Z.log2 x) with (52 + sh) in Hlog by (unfold sh; lia).
    rewrite Z.pow_add_r in Hlog by lia.
    apply Z.div_le_lower_bound; [apply Z.pow_pos_nonneg; lia|lia]. }
  assert (2 <= q) by (change (2 ^ 52) with 4503599627370496 in Hq; lia).
  nia.
Qed.

Section WithFloat.
Context {float : PyFloat} {text : PyText}.

Lemma on_compact_needed_budget cfg env t h :
  within_budget cfg h ->
  within_budget cfg (snd (on_compact_needed cfg env t h)).
Proof.
  intros [Hc Hb]. unfold on_compact_needed.
  destruct (max_compact_attempts cfg <=? compact_attempts h) eqn:E.
  - done.
  - apply Z.leb_gt in E. split; cbn [snd compact_attempts compact_events].
    + rewrite length_app. cbn [length]. lia.
    + lia.
Qed.

Lemma on_compact_once_budget cfg env t h :
  within_budget cfg h ->
  within_budget cfg (snd (on_compact_once cfg env t h)).
Proof.
  intros Hh. unfold on_compact_once.
  destruct (compact_fired h); [done|].
  assert (Hs : within_budget cfg (set_compact_fired h true)) by done.
  apply (on_compact_needed_budget cfg env t) in Hs.
  destruct (on_compact_needed cfg env t (set_compact_fired h true)).
  done.
Qed.

Lemma add_usage_budget cfg env i o label t h :
  within_budget cfg h ->
  within_budget cfg (snd (add_usage cfg env i o label t h)).
Proof.
  intros Hh. unfold add_usage, check_thresholds.
  destruct (fge _ _); [by apply on_compact_once_budget|].
  destruct (fge _ _); [|done].
  unfold on_warning_once. by destruct (warning_fired h).
Qed.

Lemma record_all_budget cfg calls :
  forall t h, within_budget cfg h ->
              within_budget cfg (snd (record_all cfg calls t h)).
Proof.
  induction calls as [|c tl IH]; intros t h Hh; cbn [record_all]; [done|].
  apply IH. by apply add_usage_budget.
Qed.

(** C5: over a whole run, however many calls cross the compaction
    threshold, the number of mitigation cycles executed (the entries
    of the event log) is at most [max_compact_attempts] (and zero when
    that setting is not positive); and once the counter has reached
    the budget, the callback only prints the limit message: tracker,
    counter and event log stay as they are. *)
Theorem C5_compaction_attempts_bounded (cfg : config) :
  (forall (calls : list call) (t : TokenUsage),
     Z.of_nat (length (compact_events
                         (snd (record_all cfg calls t initial_hooks))))
     <= Z.max 0 (max_compact_attempts cfg))
  /\ (forall (env : compact_env) (t : TokenUsage) (h : hooks),
        compact_fired h = false ->
        max_compact_attempts cfg <= compact_attempts h ->
        on_compact_once cfg env t h
        = (t, push_notice h (CompactLimitReached (max_compact_attempts cfg)))).
Proof.
  split.
  - intros calls t.
    destruct (record_all_budget cfg calls t initial_hooks) as [Hc Hb].
    { split; cbn; lia. }
    lia.
  - intros env t h Hf Hmax. unfold on_compact_once, on_compact_needed.
    rewrite Hf. cbn [compact_attempts set_compact_fired].
    apply Z.leb_le in Hmax. rewrite Hmax.
    cbn [fst snd]. f_equal. destruct h. cbn in *. by subst.
Qed.

(** C6 (amended): after a mitigation cycle in which at least one
    compact command succeeded, each of [total_combined],
    [total_input], [total_output] is [int(total * 0.5)] of its
    value before; a total that was positive is strictly smaller, and a
    total that was zero is still zero. *)
Theorem C6_discount_after_success (cfg : config) (env : compact_env)
    (t : TokenUsage) (h : hooks) (ev : compact_event) :
  compact_events (snd (on_compact_needed cfg env t h))
  = compact_events h ++ [ev] ->
  ev_any_success ev = true ->
  let t' := fst (on_compact_needed cfg env t h) in
  total_combined t' = discount (total_combined t)
  /\ total_input t' = discount (total_input t)
  /\ total_output t' = discount (total_output t)
  /\ (0 < total_combined t -> total_combined t' < total_combined t)
  /\ (0 < total_input t -> total_input t' < total_input t)
  /\ (0 < total_output t -> total_output t' < total_output t)
  /\ (total_combined t = 0 -> total_combined t' = 0)
  /\ (total_input t = 0 -> total_input t' = 0)
  /\ (total_output t = 0 -> total_output t' = 0).
Proof.
  unfold on_compact_needed.
  set (r := compact_all env _).
  set (any_success := existsb _ (fst r)).
  destruct (max_compact_attempts cfg <=? compact_attempts h).
  { cbn [snd push_notice compact_events]. intros E.
    apply (f_equal length) in E. rewrite length_app in E.
    cbn [length] in E. lia. }
  cbn [snd fst compact_events]. intros E Hev.
  apply app_inv_head in E. injection E as <-.
  cbn [ev_any_success] in Hev. rewrite Hev.
  cbn [set_totals total_combined total_input total_output].
  repeat split; try (apply discount_lt); by intros ->.
Qed.

End WithFloat.

Lemma C5_compaction_attempts_bounded_witness :
  compact_fired spent_hooks = false
  /\ max_compact_attempts (claude_config 1) <= compact_attempts spent_hooks
  /\ on_compact_once (claude_config 1) compact_ok sample_tracker spent_hooks
     = (sample_tracker,
        push_notice spent_hooks (CompactLimitReached 1)).
Proof.
  split; [reflexivity|]. split; [cbn; lia|].
  apply (proj2 (C5_compaction_attempts_bounded (claude_config 1)));
    [reflexivity|cbn; lia].
Defined.

(** C6, as stated, fails for a total that is zero: after one call with
    100 input tokens and an empty reply the budget of 100 is used up, the
    mitigation succeeds, and [total_output] is 0 before and after. *)
Lemma C6_zero_total_counterexample :
  add_usage (claude_config 3) compact_ok 100 0 (u "rewriter")
    sample_tracker initial_hooks
  = on_compact_needed (claude_config 3) compact_ok input_only_tracker
      initial_hooks
  /\ (exists ev,
        compact_events
          (snd (on_compact_needed (claude_config 3) compact_ok
                  input_only_tracker initial_hooks)) = [ev]
        /\ ev_any_success ev = true)
  /\ ~ (total_output
          (fst (on_compact_needed (claude_config 3) compact_ok
                  input_only_tracker initial_hooks))
        < total_output input_only_tracker).
Proof.
  split; [vm_compute; reflexivity|]. split.
  - eexists. split; vm_compute; reflexivity.
  - vm_compute. intros H. discriminate H.
Qed.

Lemma C6_discount_after_success_witness :
  0 < total_combined input_only_tracker
  /\ total_combined
       (fst (on_compact_needed (claude_config 3) compact_ok
               input_only_tracker initial_hooks))
     < total_combined input_only_tracker.
Proof.
  split; [cbn; lia|].
  eapply (C6_discount_after_success (claude_config 3) compact_ok
            input_only_tracker initial_hooks);
    [reflexivity|reflexivity|cbn; lia].
Defined.

End GovernorProps.

(* ===================================================================== *)
(** * Properties of the exchange state machine *)
(* ===================================================================== *)

Module ExchangeProps.
Import Proc Regex Exchange.
Import Normalizer(nonempty).
Import NormalizerProps(nonempty_true, nonempty_false).

Section WithText.
Context {text : PyText} (laws : PyTextLaws).

(** On ASCII text the class [\d] is the digits 0-9. *)
Lemma annot_ascii (s : pystr) :
  Forall (fun c => c < 128) s ->
  annot s = map (fun c => (c, ascii_digit c)) s.
Proof.
  intros Hs. unfold annot. apply map_ext_in. intros c Hc.
  rewrite Forall_forall in Hs. f_equal.
  apply (uni_digit_ascii laws). apply Hs. by apply list_elem_of_In.
Qed.

Lemma scan_no_match (r : re) (bos : bool) (x : achar) (xs : list achar) :
  match_here r bos (x :: xs) = None ->
  scan r bos (x :: xs) 0 = scan r false xs 0.
Proof. intros Hn. simpl. by rewrite Hn. Qed.

(** The parenthesised pattern cannot start on a character other
    than the opening parenthesis. *)
Lemma scan_paren_skip (prefix : pystr) :
  Forall (fun c => c <> 40) prefix ->
  forall (bos : bool) (rest : list achar),
    scan pattern_paren bos (annot prefix ++ rest) 0
    = scan pattern_paren (if prefix is [] then bos else false) rest 0.
Proof.
  induction 1 as [|c tl Hc Htl IH]; intros bos rest; [done|].
  change (annot (c :: tl) ++ rest)
    with ((c, uni_digit c) :: (annot tl ++ rest)).
  rewrite scan_no_match.
  - rewrite IH. by destruct tl.
  - unfold match_here, pattern_paren. cbn [run]. unfold lit. cbn [fst].
    by apply N.eqb_neq in Hc as ->.
Qed.

Lemma findall_listing (prefix : pystr) :
  Forall (fun c => c <> 40) prefix ->
  findall2 pattern_paren (prefix ++ u "(1) A (2) B")
  = [(u "1", u "A"); (u "2", u "B")].
Proof.
  intros Hp. unfold findall2, annot. rewrite map_app.
  fold (annot prefix). fold (annot (u "(1) A (2) B")).
  rewrite (scan_paren_skip prefix Hp).
  rewrite annot_ascii by (vm_compute; repeat constructor).
  by destruct prefix; vm_compute.
Qed.

Lemma por_falsy (a b : pyval) : truthy a = false -> por a b = b.
Proof. intros Ha. unfold por. by rewrite Ha. Qed.

Lemma por_truthy (a b : pyval) : truthy (por a b) = true \/ por a b = b.
Proof. unfold por. destruct (truthy a) eqn:E; auto. Qed.



End WithText.

Lemma dec_nonempty (n : N) : dec n <> [].
Proof.
  intros E.
  assert (E0 : dec n = dec 0 -> False).
  { intros E'. apply NormalizerProps.dec_inj in E'. subst n.
    vm_compute in E. discriminate E. }
  unfold dec in E. apply map_eq_nil in E.
  assert (Hs : NilEmpty.string_of_uint (N.to_uint n) = EmptyString).
  { rewrite <- (string_of_list_ascii_of_string
                  (NilEmpty.string_of_uint (N.to_uint n))).
    by rewrite E. }
  apply (f_equal NilEmpty.uint_of_string) in Hs.
  rewrite NilEmpty.usu in Hs. cbn in Hs. injection Hs as Hs.
  apply (f_equal N.of_uint) in Hs. rewrite DecimalN.Unsigned.of_to in Hs.
  subst n. vm_compute in E. discriminate E.
Qed.

(** The sample instance satisfies the laws. *)
Lemma ascii_text_laws : PyTextLaws (H:=ascii_text).
Proof.
  split.
  - reflexivity.
  - intros [| [|] |z|s|l|d]; cbn [truthy py_str ascii_text ascii_str];
      try discriminate.
    + intros _. destruct (z <? 0)%Z; [discriminate|apply dec_nonempty].
    + by destruct s.
  - reflexivity.
  - reflexivity.
Qed.




(** What a killed agent process does to [run_external]: the exception
    of [subprocess.run] comes out of it, for every non-empty command and
    every prompt. *)
Lemma run_external_killed {yaml : PyYaml}
    (c : pystr) (cs : list pystr) (prompt : pystr) :
  run_external (c :: cs) prompt false Killed = Raise TimeoutExpired.
Proof. reflexivity. Qed.

(** C3, the code at the failing input: with a cap of one turn, two
    rounds of confirmation by the user bring the record's turn counter
    to 2 while the supervisor loop's own counter is still 0; the status
    is not done and the supervisor thread keeps running. *)
Lemma C3_record_turn_passes_cap :
  w_max_turns (sample_worker 1) = 1%Z
  /\ x_turn (record (run_events (text:=ascii_text) (sample_worker 1)
                       (sample_worker 1) turn_overrun)) = 2%Z
  /\ x_status (record (run_events (text:=ascii_text) (sample_worker 1)
                         (sample_worker 1) turn_overrun))
     = waiting_for_performer
  /\ cm_turn (run_events (text:=ascii_text) (sample_worker 1)
                (sample_worker 1) turn_overrun) = 0%Z
  /\ cm_thread (run_events (text:=ascii_text) (sample_worker 1)
                  (sample_worker 1) turn_overrun) = Alive.
Proof. vm_compute. repeat split. Qed.

(** C4, the code at the failing input: when the agent process is killed
    for its timeout, [run_external] raises; the supervisor thread dies
    of it and the record is left as it was, with no entry for the failed
    turn.  The compact command, by contrast, catches it and reports
    failure. *)
Lemma C4_timeout_leaves_run_external :
  run_external [u "agent"] (u "prompt") false Killed
  = Raise TimeoutExpired
  /\ run_events (text:=ascii_text) (sample_worker 3) (sample_worker 3)
       [Supervisor Killed]
     = mk_pair init_exchange (Died TimeoutExpired) 0 Alive 0
  /\ Governor.call_compact_command [u "claude"] (Killed, Killed)
     = false.
Proof. vm_compute. repeat split. Qed.

End ExchangeProps.

(* ===================================================================== *)
(** * Properties of the scheduler loop *)
(* ===================================================================== *)

Module SchedulerProps.
Import Normalizer Scheduler.

Lemma count_cons (l : lifecycle) (st : task_state) (tl : list task_state) :
  count l (st :: tl)
  = ((if bool_decide (ts_status st = l) then 1 else 0) + count l tl)%nat.
Proof. unfold count. cbn [List.filter]. by destruct (bool_decide _). Qed.

Lemma count_two_le (a b : lifecycle) (states : list task_state) :
  a <> b -> (count a states + count b states <= length states)%nat.
Proof.
  intros Hab. induction states as [|st tl IH]; [done|].
  rewrite !count_cons. cbn [length].
  destruct (bool_decide_reflect (ts_status st = a)) as [Ea|Ea];
    destruct (bool_decide_reflect (ts_status st = b)) as [Eb|Eb];
    try lia.
  congruence.
Qed.

Lemma count_pos (l : lifecycle) (states : list task_state) (st : task_state) :
  st ∈ states -> ts_status st = l -> (0 < count l states)%nat.
Proof.
  induction 1 as [st tl|st st' tl Hin IH]; intros Hl; rewrite count_cons.
  - rewrite bool_decide_eq_true_2 by done. lia.
  - specialize (IH Hl). lia.
Qed.

Lemma count_zero (l : lifecycle) (states : list task_state) :
  (forall st, st ∈ states -> ts_status st <> l) -> count l states = 0%nat.
Proof.
  induction states as [|st tl IH]; intros Hn; [done|].
  rewrite count_cons. rewrite bool_decide_eq_false_2 by (apply Hn; left).
  rewrite IH; [done|]. intros st' Hin. apply Hn. by right.
Qed.

(** What "Update completion counts" does to the states and to
    [done_ids]. *)
Lemma reconcile_spec (read : reading) (states : list task_state) :
  forall (done_ids : gset pystr),
    map ts_id (fst (reconcile read states done_ids)) = map ts_id states
    /\ (forall st', st' ∈ fst (reconcile read states done_ids) ->
          exists st, st ∈ states
            /\ ts_id st' = ts_id st /\ ts_deps st' = ts_deps st
            /\ (ts_status st <> running -> st' = st)
            /\ (ts_status st' = running ->
                ts_status st = running
                /\ read (ts_index st) <> Exchange.done
                /\ read (ts_index st) <> Exchange.error))
    /\ (forall i, i ∈ snd (reconcile read states done_ids) ->
          i ∈ done_ids
          \/ exists st, st ∈ states /\ ts_status st = running /\ ts_id st = i).
Proof.
  induction states as [|st tl IH]; intros done_ids; cbn [reconcile].
  { split; [done|]. split; [|by left]. intros st' H. by apply elem_of_nil in H. }
  set (step := match ts_status st with
               | running => _
               | _ => (st, done_ids)
               end).
  assert (Hstep :
    ts_id (fst step) = ts_id st /\ ts_deps (fst step) = ts_deps st
    /\ (ts_status st <> running -> fst step = st)
    /\ (ts_status (fst step) = running ->
        ts_status st = running
        /\ read (ts_index st) <> Exchange.done
        /\ read (ts_index st) <> Exchange.error)
    /\ (forall i, i ∈ snd step ->
          i ∈ done_ids \/ (ts_status st = running /\ ts_id st = i))).
  { unfold step. clear step IH.
    destruct (ts_status st) eqn:Es;
      [split; [done|]; split; [done|]; split; [done|];
       split; [intros Hr; cbn [fst] in Hr; congruence|by left]
      | |split; [done|]; split; [done|]; split; [done|];
       split; [intros Hr; cbn [fst] in Hr; congruence|by left]..].
    destruct (read (ts_index st)) eqn:Er;
      cbn [fst snd set_lifecycle ts_id ts_deps ts_status];
      (split; [done|]; split; [done|]; split; [done|]; split;
       [intros Hr; try discriminate Hr; by repeat split|]).
    1-3: by left.
    - intros i Hi. apply elem_of_union in Hi as [Hi|Hi]; [|by left].
      apply elem_of_singleton in Hi. right. by split.
    - by left. }
  destruct step as [st1 done1]. cbn [fst snd] in Hstep.
  destruct Hstep as (Hid & Hdeps & Hkeep & Hrun & Hdone).
  destruct (IH done1) as (IHids & IHst & IHdone).
  cbn [fst snd map]. split; [by rewrite Hid, IHids|]. split.
  - intros st' Hin. apply elem_of_cons in Hin as [->|Hin].
    + exists st. split; [left|]. done.
    + destruct (IHst st' Hin) as (st0 & Hin0 & H0).
      exists st0. split; [by right|done].
  - intros i Hi. destruct (IHdone i Hi) as [Hi1|(st0 & Hin0 & Hr0 & Hi0)].
    + destruct (Hdone i Hi1) as [|[Hr Hi']]; [by left|].
      right. exists st. split; [left|done].
    + right. exists st0. split; [by right|done].
Qed.

Lemma start_ready_states (s : sched) (st' : task_state) :
  st' ∈ task_states (start_ready s) ->
  exists st, st ∈ task_states s
    /\ ts_id st' = ts_id st /\ ts_deps st' = ts_deps st
    /\ (st' = st
        \/ (ts_status st = pending /\ ts_status st' = running
            /\ forall d, d ∈ ts_deps st -> d ∈ done_ids s)).
Proof.
  unfold start_ready. cbn [task_states]. intros Hin.
  apply list_elem_of_fmap in Hin as (st & -> & Hin).
  exists st. split; [done|].
  destruct (bool_decide_reflect (ts_status st = pending)) as [Ep|Ep];
    cbn [andb]; [|by repeat split; left].
  destruct (deps_done (done_ids s) st) eqn:Ed; [|by repeat split; left].
  repeat split. right. repeat split; [done|].
  intros d Hd. unfold deps_done in Ed. rewrite forallb_forall in Ed.
  apply (bool_decide_eq_true_1 (d ∈ done_ids s)). apply Ed.
  by apply list_elem_of_In.
Qed.

Lemma start_ready_blocked (ids : gset pystr) (s : sched) :
  blocked ids s -> blocked ids (start_ready s).
Proof.
  intros [Hst Hdone]. split; [|done].
  intros st' Hin Hid.
  destruct (start_ready_states s st' Hin)
    as (st & Hin0 & Eid & Edeps & [->|(Hp & Hr & Hall)]).
  - by apply Hst.
  - rewrite Eid in Hid. destruct (Hst st Hin0 Hid) as [_ (d & Hd & Hdi)].
    exfalso. apply (Hdone d Hdi). by apply Hall.
Qed.

Lemma reconcile_blocked (ids : gset pystr) (read : reading) (s : sched) :
  blocked ids s ->
  blocked ids (mk_sched (fst (reconcile read (task_states s) (done_ids s)))
                 (snd (reconcile read (task_states s) (done_ids s)))).
Proof.
  intros [Hst Hdone].
  destruct (reconcile_spec read (task_states s) (done_ids s))
    as (_ & Hst' & Hdone').
  split; cbn [task_states done_ids].
  - intros st' Hin Hid. destruct (Hst' st' Hin) as (st & Hin0 & Eid & Edeps & Hkeep & _).
    rewrite Eid in Hid. destruct (Hst st Hin0 Hid) as [Hp Hd].
    rewrite (Hkeep ltac:(by rewrite Hp)). done.
  - intros i Hi Hin. destruct (Hdone' i Hin) as [Hin0|(st & Hin0 & Hr & Eid)].
    + by apply (Hdone i).
    + subst i. destruct (Hst st Hin0 Hi) as [Hp _]. congruence.
Qed.

Lemma pass_sched (verbose : bool) (read : reading) (s : sched) :
  fst (pass verbose read s)
  = mk_sched
      (fst (reconcile read (task_states (start_ready s)) (done_ids (start_ready s))))
      (snd (reconcile read (task_states (start_ready s)) (done_ids (start_ready s)))).
Proof. unfold pass. by repeat destruct (_ : bool). Qed.

Lemma pass_blocked (ids : gset pystr) (verbose : bool) (read : reading)
    (s : sched) :
  blocked ids s -> blocked ids (fst (pass verbose read s)).
Proof.
  intros Hb. rewrite pass_sched.
  apply reconcile_blocked. by apply start_ready_blocked.
Qed.

Lemma pass_ids (verbose : bool) (read : reading) (s : sched) :
  map ts_id (task_states (fst (pass verbose read s)))
  = map ts_id (task_states s).
Proof.
  rewrite pass_sched. cbn [task_states].
  destruct (reconcile_spec read (task_states (start_ready s))
              (done_ids (start_ready s))) as (-> & _).
  unfold start_ready. cbn [task_states]. rewrite map_map.
  apply map_ext. intros st. by destruct (_ && _).
Qed.

Lemma after_blocked (ids : gset pystr) (reads : nat -> reading) (s : sched)
    (n : nat) :
  blocked ids s -> blocked ids (after n reads s).
Proof.
  intros Hb. induction n as [|n IH]; [done|].
  cbn [after]. by apply pass_blocked.
Qed.

(** In a pass whose readings are all final, no task is left running. *)
Lemma settled_none_running (read : reading) (states : list task_state)
    (done_ids : gset pystr) :
  settled read ->
  count running (fst (reconcile read states done_ids)) = 0%nat.
Proof.
  intros Hs. apply count_zero. intros st' Hin Hr.
  destruct (reconcile_spec read states done_ids) as (_ & Hst & _).
  destruct (Hst st' Hin) as (st & _ & _ & _ & _ & Hrun).
  destruct (Hrun Hr) as (_ & Hd & He).
  destruct (Hs (ts_index st)); congruence.
Qed.

(** With a blocked task present, a pass can only leave through the
    deadlock exit. *)
Lemma pass_exit_blocked (ids : gset pystr) (verbose : bool) (read : reading)
    (s : sched) (e : exit) (printed : list notice) :
  blocked ids s ->
  (exists i, i ∈ map ts_id (task_states s) /\ i ∈ ids) ->
  snd (pass verbose read s) = Some (e, printed) ->
  e = Deadlock /\ printed = (if verbose then [DeadlockWarning] else []).
Proof.
  intros Hb (i & Hi & Hids) Hexit.
  pose proof (pass_blocked ids verbose read s Hb) as [Hst _].
  rewrite <- (pass_ids verbose read s) in Hi.
  apply list_elem_of_fmap in Hi as (st & -> & Hin).
  destruct (Hst st Hin Hids) as [Hp _].
  rewrite pass_sched in Hin. cbn [task_states] in Hin.
  pose proof (count_pos pending _ st Hin Hp) as Hpos.
  pose proof (count_two_le done pending
                (fst (reconcile read (task_states (start_ready s))
                        (done_ids (start_ready s)))) ltac:(done)) as Hle.
  unfold pass in Hexit. cbv zeta in Hexit.
  destruct (_ <=? _)%nat eqn:E1 in Hexit.
  { apply Nat.leb_le in E1. lia. }
  destruct (count running _ =? 0)%nat eqn:E2 in Hexit; cbn [andb] in Hexit.
  - destruct (count pending _ =? 0)%nat eqn:E3 in Hexit.
    { apply Nat.eqb_eq in E3. lia. }
    destruct (0 <? count pending _)%nat eqn:E4 in Hexit;
      cbn [snd] in Hexit; [|discriminate].
    injection Hexit as <- <-. done.
  - discriminate.
Qed.

Lemma pass_exits_when_settled (verbose : bool) (read : reading) (s : sched) :
  settled read -> snd (pass verbose read s) <> None.
Proof.
  intros Hs. unfold pass. cbv zeta.
  rewrite (settled_none_running read _ _ Hs).
  destruct (_ <=? _)%nat; [done|].
  cbn [Nat.eqb andb].
  destruct (count pending _) eqn:E; cbn [Nat.eqb Nat.ltb Nat.leb]; done.
Qed.

(** Once a pass finds every started task finished, the loop ends; with
    a blocked task present it ends through the deadlock exit. *)
Lemma loop_reaches_deadlock (ids : gset pystr) (verbose : bool)
    (reads : nat -> reading) :
  forall (k n : nat) (s : sched),
    blocked ids s ->
    (exists i, i ∈ map ts_id (task_states s) /\ i ∈ ids) ->
    settled (reads (n + k)%nat) ->
    exists o,
      loop (S k) verbose reads n s = Some o
      /\ o_exit o = Deadlock
      /\ o_stderr o = (if verbose then [DeadlockWarning] else [])
      /\ blocked ids (o_sched o).
Proof.
  induction k as [|k IH]; intros n s Hb Hi Hs.
  - replace (n + 0)%nat with n in Hs by lia. cbn [loop].
    pose proof (pass_exits_when_settled verbose (reads n) s Hs) as Hne.
    pose proof (pass_blocked ids verbose (reads n) s Hb) as Hb'.
    pose proof (pass_exit_blocked ids verbose (reads n) s) as Hex.
    destruct (pass verbose (reads n) s) as [s' [[e printed]|]];
      [|done].
    destruct (Hex e printed Hb Hi eq_refl) as [He Hp].
    eexists. split; [reflexivity|]. cbn [o_exit o_stderr o_sched].
    split; [exact He|]. split; [exact Hp|exact Hb'].
  - cbn [loop].
    pose proof (pass_blocked ids verbose (reads n) s Hb) as Hb'.
    pose proof (pass_ids verbose (reads n) s) as Hids.
    pose proof (pass_exit_blocked ids verbose (reads n) s) as Hex.
    destruct (pass verbose (reads n) s) as [s' [[e printed]|]].
    + destruct (Hex e printed Hb Hi eq_refl) as [He Hp].
      eexists. split; [reflexivity|]. cbn [o_exit o_stderr o_sched].
      split; [exact He|]. split; [exact Hp|exact Hb'].
    + cbn [fst] in Hb', Hids.
      apply (IH (S n) s' Hb').
      * by rewrite Hids.
      * replace (S n + k)%nat with (n + S k)%nat by lia. done.
Qed.


Lemma cyclic_pair_blocked :
  blocked {[u "a"; u "b"]} (initial cyclic_pair).
Proof.
  split; [|set_solver].
  intros st Hin Hid. cbn in Hin.
  repeat (apply elem_of_cons in Hin as [->|Hin]);
    [| |by apply elem_of_nil in Hin].
  - split; [done|]. exists (u "b"). split; [by left|set_solver].
  - split; [done|]. exists (u "a"). split; [by left|set_solver].
Qed.



End SchedulerProps.

(* ===================================================================== *)
(** * Properties of the status writes *)
(* ===================================================================== *)

Module RunProps.
Import Governor Run.

Section WithFloat.
Context {float : PyFloat} {text : PyText}.

Lemma token_warning_written : u "token_warning" ∈ written_stages.
Proof. unfold written_stages. apply elem_of_app. right. by left. Qed.

Lemma spec_stage_written (s : pystr) : s ∈ spec_stages -> s ∈ written_stages.
Proof. intros Hs. unfold written_stages. apply elem_of_app. by left. Qed.

Lemma write_status_ok (h : hooks) (stage : pystr) :
  stages_ok h -> stage ∈ written_stages -> stages_ok (write_status h stage).
Proof.
  intros Hh Hs. unfold stages_ok, write_status. cbn [status_stages].
  apply Forall_app. split; [done|]. by constructor.
Qed.

Lemma on_compact_needed_stages (cfg : config) (env : compact_env)
    (t : TokenUsage) (h : hooks) :
  status_stages (snd (on_compact_needed cfg env t h)) = status_stages h.
Proof.
  unfold on_compact_needed. set (r := compact_all env _).
  by destruct (_ <=? _)%Z.
Qed.

Lemma add_usage_stages (cfg : config) (env : compact_env) (i o : Z)
    (label : pystr) (t : TokenUsage) (h : hooks) :
  stages_ok h -> stages_ok (snd (add_usage cfg env i o label t h)).
Proof.
  intros Hh. unfold add_usage, check_thresholds.
  destruct (fge _ _).
  - unfold on_compact_once. destruct (compact_fired h); [done|].
    unfold stages_ok. cbn [snd set_compact_fired status_stages].
    by rewrite on_compact_needed_stages.
  - destruct (fge _ _); [|done]. cbn [snd].
    unfold on_warning_once. destruct (warning_fired h); [done|].
    unfold stages_ok, on_token_warning. cbn [status_stages set_warning_fired].
    apply Forall_app. split; [done|].
    constructor; [apply token_warning_written|constructor].
Qed.

Lemma perform_all_stages (cfg : config) (actions : list action) :
  writes_ok actions ->
  forall (t : TokenUsage) (h : hooks),
    stages_ok h -> stages_ok (snd (perform_all cfg actions t h)).
Proof.
  induction actions as [|a tl IH]; intros Hw t h Hh; [done|].
  cbn [perform_all]. apply IH.
  - intros stage Hin. apply Hw. by right.
  - destruct a as [stage|[c|]]; cbn [perform snd].
    + apply write_status_ok; [done|]. apply spec_stage_written.
      apply Hw. left.
    + by apply add_usage_stages.
    + done.
Qed.

Lemma script_writes_ok (sc : scenario) : writes_ok (script sc).
Proof.
  intros stage Hin. unfold script in Hin.
  apply elem_of_app in Hin as [Hin|Hin].
  { repeat (apply elem_of_cons in Hin as [Hin|Hin]);
      try (by apply elem_of_nil in Hin); try discriminate Hin;
      injection Hin as ->; unfold spec_stages; set_solver. }
  apply elem_of_app in Hin as [Hin|Hin].
  { apply list_elem_of_In in Hin. apply in_flat_map in Hin as (calls & _ & Hin).
    apply in_app_iff in Hin as [Hin|Hin].
    - apply in_map_iff in Hin as (c & Hc & _). discriminate Hc.
    - destruct Hin as [Hin|[]]. injection Hin as <-.
      unfold spec_stages. set_solver. }
  apply elem_of_app in Hin as [Hin|Hin].
  { destruct (sc_mix sc); [|by apply elem_of_nil in Hin].
    repeat (apply elem_of_cons in Hin as [Hin|Hin]);
      try (by apply elem_of_nil in Hin); try discriminate Hin;
      injection Hin as ->; unfold spec_stages; set_solver. }
  apply list_elem_of_singleton in Hin. injection Hin as ->.
  unfold spec_stages. set_solver.
Qed.

(** C9 (amended): every stage the program writes to the status file
    is one of the eight stages initialized, rewriter, rewriter_done,
    performer, mix, mix_done, done, error, or the ninth stage
    token_warning, which the governor's warning callback writes; the
    [write_status] calls of [run] itself use the eight only. *)
Theorem C9_written_stages (cfg : config) (t : TokenUsage) (sc : scenario) :
  (forall stage, stage ∈ run_stages cfg t sc ->
                 stage ∈ spec_stages \/ stage = u "token_warning")
  /\ (forall stage, WriteStatus stage ∈ script sc -> stage ∈ spec_stages).
Proof.
  split; [|apply script_writes_ok].
  assert (H0 : stages_ok (write_status initial_hooks (u "initialized"))).
  { apply write_status_ok; [constructor|].
    apply spec_stage_written. unfold spec_stages. set_solver. }
  assert (Hall : Forall (fun s => s ∈ written_stages) (run_stages cfg t sc)).
  { unfold run_stages. destruct (sc_raise_after sc) as [k|].
    - apply write_status_ok; [|apply spec_stage_written;
                                unfold spec_stages; set_solver].
      apply perform_all_stages; [|done].
      intros stage Hin. apply (script_writes_ok sc).
      by apply (subseteq_take k (script sc)).
    - apply perform_all_stages; [apply script_writes_ok|done]. }
  intros stage Hin. rewrite Forall_forall in Hall.
  specialize (Hall stage Hin). unfold written_stages in Hall.
  apply elem_of_app in Hall as [Hs|Hs]; [by left|].
  right. by apply list_elem_of_singleton in Hs.
Qed.

End WithFloat.

(** C9, as stated, fails: when the planner call alone brings the usage
    to 80% of the budget, the warning callback writes the stage
    token_warning, which is none of the eight. *)
Lemma C9_token_warning_counterexample :
  u "token_warning" ∈ run_stages (claude_config 3) sample_tracker warm_run
  /\ u "token_warning" ∉ spec_stages.
Proof.
  split.
  - apply list_elem_of_In. vm_compute. right. right. left. reflexivity.
  - intros Hin. apply list_elem_of_In in Hin. vm_compute in Hin.
    repeat (destruct Hin as [Hin|Hin]; [discriminate Hin|]). exact Hin.
Qed.

End RunProps.
